(** * EasyPix editor: viewport gesture engine and raster edit pipeline

    A shallow embedding of [src/components/EditorScreen.tsx]: the pointer
    handlers and the animation loop that drive the viewport transform, the
    bounded undo stack with the edit handlers that feed it, the aspect-ratio
    crop geometry and the canvas flip.

    Numbers.  The component computes with JavaScript numbers.  They are
    modelled by [JS.num]: a finite value is an exact rational, and the three
    special values of IEEE arithmetic ([Infinity], [-Infinity], [NaN]) are
    kept, because the handlers divide by measured quantities that can be
    zero.  Rounding of finite results, overflow and the sign of zero are
    not modelled. *)

From Stdlib Require Import ZArith QArith Qcanon Qround Qreduction.
From Stdlib Require Import List Bool String Lia Lqa.
Import ListNotations.

Set Implicit Arguments.

(** ** JavaScript numbers *)

Module JS.

Inductive num : Type :=
| Fin (q : Qc)
| PInf
| NInf
| NaN.

Definition ofQ (q : Q) : num := Fin (Q2Qc q).
Definition ofZ (z : Z) : num := Fin (Q2Qc (inject_Z z)).

Definition zero : num := ofZ 0.
Definition one : num := ofZ 1.

(** Sign of a number that is not [NaN]. *)
Definition sgn (a : num) : comparison :=
  match a with
  | Fin q => Qccompare q (Q2Qc 0)
  | PInf => Gt
  | NInf => Lt
  | NaN => Eq
  end.

Definition neg (a : num) : num :=
  match a with
  | Fin q => Fin (Qcopp q)
  | PInf => NInf
  | NInf => PInf
  | NaN => NaN
  end.

Definition add (a b : num) : num :=
  match a, b with
  | NaN, _ | _, NaN => NaN
  | Fin x, Fin y => Fin (Qcplus x y)
  | PInf, NInf | NInf, PInf => NaN
  | PInf, _ | _, PInf => PInf
  | NInf, _ | _, NInf => NInf
  end.

Definition sub (a b : num) : num := add a (neg b).

Definition mul (a b : num) : num :=
  match a, b with
  | NaN, _ | _, NaN => NaN
  | Fin x, Fin y => Fin (Qcmult x y)
  | _, _ =>
      match sgn a, sgn b with
      | Eq, _ | _, Eq => NaN
      | Gt, Gt | Lt, Lt => PInf
      | _, _ => NInf
      end
  end.

(** Division.  A zero divisor gives [NaN] for a zero dividend and an
    infinity otherwise (the divisor is taken as [+0]). *)
Definition div (a b : num) : num :=
  match a, b with
  | NaN, _ | _, NaN => NaN
  | Fin x, Fin y =>
      match Qccompare y (Q2Qc 0) with
      | Eq => match Qccompare x (Q2Qc 0) with
              | Eq => NaN
              | Gt => PInf
              | Lt => NInf
              end
      | _ => Fin (Qcdiv x y)
      end
  | Fin _, _ => zero
  | _, Fin y =>
      match sgn a, Qccompare y (Q2Qc 0) with
      | Gt, Lt | Lt, (Eq | Gt) => NInf
      | _, _ => PInf
      end
  | _, _ => NaN
  end.

(** [a < b]; every comparison with [NaN] is false. *)
Definition ltb (a b : num) : bool :=
  match a, b with
  | NaN, _ | _, NaN => false
  | Fin x, Fin y => match Qccompare x y with Lt => true | _ => false end
  | NInf, (Fin _ | PInf) => true
  | Fin _, PInf => true
  | _, _ => false
  end.

Definition gtb (a b : num) : bool := ltb b a.

(** [a <= b] *)
Definition leb (a b : num) : bool :=
  match a, b with
  | NaN, _ | _, NaN => false
  | Fin x, Fin y => match Qccompare x y with Gt => false | _ => true end
  | NInf, _ | _, PInf => true
  | _, _ => false
  end.

Definition eqb (a b : num) : bool :=
  match a, b with
  | Fin x, Fin y => match Qccompare x y with Eq => true | _ => false end
  | PInf, PInf | NInf, NInf => true
  | _, _ => false
  end.

Definition isNaN (a : num) : bool :=
  match a with NaN => true | _ => false end.

(** Truthiness of a number: [0] and [NaN] are falsy. *)
Definition truthy (a : num) : bool :=
  match a with
  | Fin q => match Qccompare q (Q2Qc 0) with Eq => false | _ => true end
  | NaN => false
  | _ => true
  end.

(** [a || b] on numbers. *)
Definition or_else (a b : num) : num := if truthy a then a else b.

Module Math.

Definition absQc (q : Qc) : Qc :=
  match Qccompare q (Q2Qc 0) with Lt => Qcopp q | _ => q end.

Definition abs (a : num) : num :=
  match a with
  | Fin q => Fin (absQc q)
  | NInf => PInf
  | _ => a
  end.

Definition max (a b : num) : num :=
  match a, b with
  | NaN, _ | _, NaN => NaN
  | _, _ => if ltb a b then b else a
  end.

Definition min (a b : num) : num :=
  match a, b with
  | NaN, _ | _, NaN => NaN
  | _, _ => if ltb b a then b else a
  end.

(** [Math.round]: the nearest integer, halves towards [+Infinity]. *)
Definition round (a : num) : num :=
  match a with
  | Fin q => ofZ (Qfloor (Qplus q (1 # 2)))
  | _ => a
  end.

(** Square root of a non-negative rational: exact when the reduced
    numerator and denominator are perfect squares, otherwise the quotient
    of the integer square roots. *)
Definition sqrtQc (q : Qc) : Qc :=
  Q2Qc (Qmake (Z.sqrt (Qnum q)) (Pos.sqrt (Qden q))).

(** [Math.hypot(dx, dy)]. *)
Definition hypot (dx dy : num) : num :=
  match dx, dy with
  | (PInf | NInf), _ | _, (PInf | NInf) => PInf
  | NaN, _ | _, NaN => NaN
  | Fin x, Fin y => Fin (sqrtQc (Qcplus (Qcmult x x) (Qcmult y y)))
  end.

End Math.

End JS.

Declare Scope js_scope.
Delimit Scope js_scope with js.
Bind Scope js_scope with JS.num.
Infix "+" := JS.add : js_scope.
Infix "-" := JS.sub : js_scope.
Infix "*" := JS.mul : js_scope.
Infix "/" := JS.div : js_scope.
Infix "<?" := JS.ltb : js_scope.
Infix "<=?" := JS.leb : js_scope.
Infix ">?" := JS.gtb : js_scope.
Infix "=?" := JS.eqb : js_scope.
Notation "a '#/' b" := (JS.ofQ (Qmake a b)) (at level 5, no associativity) : js_scope.

Local Open Scope js_scope.

(** ** The viewport transform engine (pan, pinch, inertia) *)

Module Gesture.

Import JS.

Record TransformState : Type := mkTransform {
  tx : num;     (* translate x (px) *)
  ty : num;     (* translate y (px) *)
  scale : num
}.

Record Velocity : Type := mkVelocity { vx : num; vy : num }.

(** The pointer events the handlers read: id and client position. *)
Record P : Type := mkP { pointerId : Z; clientX : num; clientY : num }.

(** [lastPointerRef.current]: time and position of the last sample. *)
Record Sample : Type := mkSample { t : num; x : num; y : num }.

Record DOMRect : Type := mkRect {
  left : num; top : num; width : num; height : num
}.

(** What a handler reads from the browser while it runs: the two calls of
    [performance.now()] of the pan branch, [window.innerWidth], and the
    bounding rectangles of the container and of the image ([None] when the
    ref is not attached). *)
Record Env : Type := mkEnv {
  now1 : num;
  now2 : num;
  innerWidth : num;
  containerRect : option DOMRect;
  imgRect : option DOMRect
}.

(** The refs of the component.  [pointers] is a JavaScript [Map]: keys are
    unique and iteration follows insertion order.  [lastPinchDistance] is
    the ad hoc property [_lastPinchDistance] stored on [targetRef].
    [rafQueue] counts the [loop] callbacks handed to
    [requestAnimationFrame] and not yet run. *)
Record Engine : Type := mkEngine {
  transformRef : TransformState;
  targetRef : TransformState;
  lastPinchDistance : option num;
  velocityRef : Velocity;
  pointers : list (Z * P);
  lastPointerRef : option Sample;
  isAnimatingRef : bool;
  rafQueue : nat
}.

Definition identity : TransformState := mkTransform zero zero one.

Definition init : Engine :=
  mkEngine identity identity None (mkVelocity zero zero) [] None false 0.

(** *** The pointer table *)

Fixpoint map_has (k : Z) (m : list (Z * P)) : bool :=
  match m with
  | [] => false
  | (k', _) :: m' => if Z.eqb k k' then true else map_has k m'
  end.

Fixpoint map_set (k : Z) (v : P) (m : list (Z * P)) : list (Z * P) :=
  match m with
  | [] => [(k, v)]
  | (k', v') :: m' =>
      if Z.eqb k k' then (k, v) :: m' else (k', v') :: map_set k v m'
  end.

Fixpoint map_delete (k : Z) (m : list (Z * P)) : list (Z * P) :=
  match m with
  | [] => []
  | (k', v') :: m' =>
      if Z.eqb k k' then m' else (k', v') :: map_delete k m'
  end.

Definition map_values (m : list (Z * P)) : list P := List.map snd m.

(** *** Helpers *)

Definition clamp (v a b : num) : num := Math.max a (Math.min b v).

Definition getDistanceBetween (a b : P) : num :=
  let dx := clientX a - clientX b in
  let dy := clientY a - clientY b in
  Math.hypot dx dy.

Definition getMidpoint (a b : P) : num * num :=
  ((clientX a + clientX b) / ofZ 2, (clientY a + clientY b) / ofZ 2).

(** *** The animation loop *)

Definition startLoop (s : Engine) : Engine :=
  if isAnimatingRef s then s
  else mkEngine (transformRef s) (targetRef s) (lastPinchDistance s)
         (velocityRef s) (pointers s) (lastPointerRef s)
         true (S (rafQueue s)).

Definition ease : num := 15 #/ 100.
Definition friction : num := 92 #/ 100.

(** The display transform after the easing step of a frame. *)
Definition eased (cur tgt : TransformState) : TransformState :=
  mkTransform (tx cur + (tx tgt - tx cur) * ease)
              (ty cur + (ty tgt - ty cur) * ease)
              (scale cur + (scale tgt - scale cur) * ease).

(** The guard of the fling step. *)
Definition flinging (v : Velocity) : bool :=
  (Math.abs (vx v) >? 2 #/ 100) || (Math.abs (vy v) >? 2 #/ 100).

Definition closeEnough (cur tgt : TransformState) (v : Velocity) : bool :=
  (Math.abs (tx tgt - tx cur) <? 3 #/ 10)
  && (Math.abs (ty tgt - ty cur) <? 3 #/ 10)
  && (Math.abs (scale tgt - scale cur) <? 1 #/ 1000)
  && (Math.abs (vx v) <? 5 #/ 100)
  && (Math.abs (vy v) <? 5 #/ 100).

(** One run of the [loop] callback of [startLoop]. *)
Definition loop (s : Engine) : Engine :=
  let tgt := targetRef s in
  let cur := eased (transformRef s) tgt in
  let v := velocityRef s in
  let '(cur, v) :=
    if flinging v
    then (mkTransform (tx cur + vx v) (ty cur + vy v) (scale cur),
          mkVelocity (vx v * friction) (vy v * friction))
    else (cur, v) in
  if negb (closeEnough cur tgt v)
  then mkEngine cur tgt (lastPinchDistance s) v (pointers s)
         (lastPointerRef s) (isAnimatingRef s) (S (rafQueue s))
  else mkEngine tgt tgt (lastPinchDistance s) (mkVelocity zero zero)
         (pointers s) (lastPointerRef s) false (rafQueue s).

(** The display and the velocity of a frame after its fling step. *)
Definition flung (cur : TransformState) (v : Velocity) : TransformState :=
  if flinging v
  then mkTransform (tx cur + vx v) (ty cur + vy v) (scale cur)
  else cur.

Definition decayed (v : Velocity) : Velocity :=
  if flinging v
  then mkVelocity (vx v * friction) (vy v * friction)
  else v.

(** An animation frame of the browser: every callback queued before the
    frame runs once; what they queue waits for the next frame. *)
Definition frame (s : Engine) : Engine :=
  Nat.iter (rafQueue s) loop
    (mkEngine (transformRef s) (targetRef s) (lastPinchDistance s)
       (velocityRef s) (pointers s) (lastPointerRef s)
       (isAnimatingRef s) 0).

(** *** Pointer handlers *)

Definition onPointerDown (e : P) (env : Env) (s : Engine) : Engine :=
  startLoop
    (mkEngine (transformRef s) (targetRef s) (lastPinchDistance s)
       (mkVelocity zero zero)
       (map_set (pointerId e) e (pointers s))
       (Some (mkSample (now1 env) (clientX e) (clientY e)))
       (isAnimatingRef s) (rafQueue s)).

(** The frame unit [1000 / 60] milliseconds. *)
Definition frameUnit : num := ofZ 1000 / ofZ 60.

(** The single-pointer branch of [onPointerMove]. *)
Definition pan (p : P) (env : Env) (s : Engine) : Engine :=
  let v :=
    match lastPointerRef s with
    | Some l =>
        let dt := Math.max one (now1 env - t l) in
        let dx := clientX p - x l in
        let dy := clientY p - y l in
        mkVelocity (dx / (dt / frameUnit)) (dy / (dt / frameUnit))
    | None => velocityRef s
    end in
  let last := mkSample (now2 env) (clientX p) (clientY p) in
  let tgt := targetRef s in
  let tx1 := tx tgt + (clientX p - innerWidth env / ofZ 2) * zero in
  let tx2 := tx1 + or_else (clientX p - x last) zero in
  let ty2 := ty tgt + or_else (clientY p - y last) zero in
  startLoop
    (mkEngine (transformRef s)
       (mkTransform tx2 ty2 (clamp (scale tgt) (3 #/ 10) (ofZ 4)))
       (lastPinchDistance s) v (pointers s) (Some last)
       (isAnimatingRef s) (rafQueue s)).

(** [!d] for the stored pinch distance: unset, [0] and [NaN] are falsy. *)
Definition unset (d : option num) : bool :=
  match d with
  | None => true
  | Some d => negb (truthy d)
  end.

(** The scale a pinch update writes, from the stored distance, the current
    distance and the previous target scale. *)
Definition pinchScale (stored : option num) (dist prevScale : num) : num :=
  let prevDist :=
    match stored with
    | Some d => if unset stored then dist else d
    | None => dist
    end in
  let scaleFactor := dist / prevDist in
  clamp (prevScale * scaleFactor) (3 #/ 10) (ofZ 4).

(** The branch of [onPointerMove] for two or more pointers; [a] and [b]
    are the first two values of the pointer table. *)
Definition pinch (a b : P) (env : Env) (s : Engine) : Engine :=
  let dist := getDistanceBetween a b in
  let mid := getMidpoint a b in
  let tgt := targetRef s in
  let prevScale := scale tgt in
  let newScale := pinchScale (lastPinchDistance s) dist prevScale in
  let '(tx', ty') :=
    match containerRect env, imgRect env with
    | Some _, Some r =>
        let cx := fst mid - (left r + width r / ofZ 2) in
        let cy := snd mid - (top r + height r / ofZ 2) in
        (tx tgt - (newScale / prevScale - one) * cx,
         ty tgt - (newScale / prevScale - one) * cy)
    | _, _ => (tx tgt, ty tgt)
    end in
  startLoop
    (mkEngine (transformRef s) (mkTransform tx' ty' newScale)
       (Some dist) (velocityRef s) (pointers s) (lastPointerRef s)
       (isAnimatingRef s) (rafQueue s)).

Definition onPointerMove (e : P) (env : Env) (s : Engine) : Engine :=
  if negb (map_has (pointerId e) (pointers s)) then s
  else
    let s := mkEngine (transformRef s) (targetRef s) (lastPinchDistance s)
               (velocityRef s) (map_set (pointerId e) e (pointers s))
               (lastPointerRef s) (isAnimatingRef s) (rafQueue s) in
    match map_values (pointers s) with
    | [] => s
    | [p] => pan p env s
    | a :: b :: _ => pinch a b env s
    end.

Definition onPointerUp (e : P) (s : Engine) : Engine :=
  startLoop
    (mkEngine (transformRef s) (targetRef s) None (velocityRef s)
       (map_delete (pointerId e) (pointers s)) None
       (isAnimatingRef s) (rafQueue s)).

(** The effect that runs when the current image changes. *)
Definition resetOnImageChange (s : Engine) : Engine :=
  mkEngine identity identity (lastPinchDistance s) (mkVelocity zero zero)
    (pointers s) (lastPointerRef s) (isAnimatingRef s) (rafQueue s).

(** *** The page around the engine *)

(** The layout of the page: the window width, the rectangle of the
    container and the layout box of the image before its transform. *)
Record Page : Type := mkPage {
  pageWidth : num;
  container : DOMRect;
  imgLayout : DOMRect
}.

(** The rectangle [getBoundingClientRect] reports for the image: its layout
    box scaled about its centre and moved by the transform that
    [applyTransformToNode] wrote to the node, which is [transformRef]. *)
Definition getBoundingClientRect (layout : DOMRect) (cur : TransformState)
  : DOMRect :=
  let w := width layout * Math.abs (scale cur) in
  let h := height layout * Math.abs (scale cur) in
  let cx := left layout + width layout / ofZ 2 + tx cur in
  let cy := top layout + height layout / ofZ 2 + ty cur in
  mkRect (cx - w / ofZ 2) (cy - h / ofZ 2) w h.

Inductive Event : Type :=
| PointerDown (e : P) (now : num)
| PointerMove (e : P) (now : num)
| PointerUp (e : P)
| AnimationFrame
| ImageChange.

Definition step (pg : Page) (s : Engine) (ev : Event) : Engine :=
  match ev with
  | PointerDown e now =>
      onPointerDown e (mkEnv now now (pageWidth pg) None None) s
  | PointerMove e now =>
      onPointerMove e
        (mkEnv now now (pageWidth pg) (Some (container pg))
           (Some (getBoundingClientRect (imgLayout pg) (transformRef s))))
        s
  | PointerUp e => onPointerUp e s
  | AnimationFrame => frame s
  | ImageChange => resetOnImageChange s
  end.

Definition run (pg : Page) (evs : list Event) (s : Engine) : Engine :=
  fold_left (step pg) evs s.

(** The screen position of the point of the image that lies at offset
    [(u, v)] from the centre of its layout box, under the transform
    [translate(tx, ty) scale(s)] about that centre. *)
Definition screenX (layout : DOMRect) (tr : TransformState) (u : num) : num :=
  left layout + width layout / ofZ 2 + tx tr + scale tr * u.
Definition screenY (layout : DOMRect) (tr : TransformState) (v : num) : num :=
  top layout + height layout / ofZ 2 + ty tr + scale tr * v.

(** The offset from the centre of the image point shown at a screen
    position. *)
Definition imageX (layout : DOMRect) (tr : TransformState) (sx : num) : num :=
  (sx - (left layout + width layout / ofZ 2 + tx tr)) / scale tr.
Definition imageY (layout : DOMRect) (tr : TransformState) (sy : num) : num :=
  (sy - (top layout + height layout / ofZ 2 + ty tr)) / scale tr.

End Gesture.

(** ** The edit pipeline: undo stack and edit handlers *)

Module Editor.

Inductive Tool : Type :=
| crop | ratio | flip | compress | enhance | import | removeBg.

Record Overlay : Type := mkOverlay {
  src : string;
  ox : JS.num;
  oy : JS.num;
  owidth : JS.num;
  oheight : JS.num;
  opacity : JS.num
}.

(** The React state of the component the edit handlers touch.  Images are
    data URIs.  [alerts] logs the messages passed to [alert], latest
    first. *)
Record State : Type := mkState {
  activeTool : option Tool;
  isProcessing : bool;
  processingMessage : string;
  undoStack : list string;
  currentImageUri : string;
  overlay : option Overlay;
  alerts : list string
}.

Definition initial (imageUri : string) : State :=
  mkState None false "Processing..." [] imageUri None [].

(** [s.slice(0, 9)] *)
Definition slice09 (s : list string) : list string := firstn 9 s.

Definition pushUndo (uri : string) (s : list string) : list string :=
  uri :: slice09 s.

(** Truthiness of a string: only the empty string is falsy. *)
Definition nonEmpty (s : string) : bool :=
  match s with
  | EmptyString => false
  | String _ _ => true
  end.

(** A successful edit: [pushUndo(currentImageUri)] and
    [setCurrentImageUri(result)]. *)
Definition commit (result : string) (st : State) : State :=
  mkState (activeTool st) (isProcessing st) (processingMessage st)
    (pushUndo (currentImageUri st) (undoStack st)) result
    (overlay st) (alerts st).

Definition handleUndo (st : State) : State :=
  match undoStack st with
  | latest :: rest =>
      if nonEmpty latest
      then mkState (activeTool st) (isProcessing st) (processingMessage st)
             rest latest (overlay st) (alerts st)
      else st
  | [] => st
  end.

(** *** Asynchronous handlers

    A handler that awaits a promise is run against the way the promise
    settles.  [Pending] is a promise that never settles: the code after the
    [await], and with it the [catch] and [finally] blocks, never runs. *)
Inductive Settled (A : Type) : Type :=
| Fulfilled (a : A)
| Rejected
| Pending.
Arguments Fulfilled {A} a.
Arguments Rejected {A}.
Arguments Pending {A}.

Definition busy (msg : string) (st : State) : State :=
  mkState (activeTool st) true msg (undoStack st) (currentImageUri st)
    (overlay st) (alerts st).

Definition alert (msg : string) (st : State) : State :=
  mkState (activeTool st) (isProcessing st) (processingMessage st)
    (undoStack st) (currentImageUri st) (overlay st) (msg :: alerts st).

(** The [finally] block shared by the handlers. *)
Definition finally (st : State) : State :=
  mkState (activeTool st) false "Processing..." (undoStack st)
    (currentImageUri st) (overlay st) (alerts st).

Definition handleBackgroundRemove (result : Settled string) (st : State)
  : State :=
  let st := busy "Removing background..." st in
  match result with
  | Fulfilled result => finally (commit result st)
  | Rejected => finally (alert "Background removal failed." st)
  | Pending => st
  end.

(** How an [Image] whose [src] was just set ends up: decoded, or not
    decodable (its [error] event fires instead of [load]). *)
Inductive Load : Type :=
| Loaded
| LoadError.

(** [applyCanvasOperations]: the promise rejects when the image does not
    decode ([img.onerror]) and when no 2d context is available or the
    encoding throws (the [try] inside [img.onload]). *)
Definition applyCanvasOperations
    (load : Load) (context2d : bool) (encoded : option string)
  : Settled string :=
  match load with
  | LoadError => Rejected
  | Loaded =>
      if context2d
      then match encoded with
           | Some uri => Fulfilled uri
           | None => Rejected
           end
      else Rejected
  end.

(** The Apply buttons of the compress and enhance tools. *)
Definition applyTool (msg failure : string) (result : Settled string)
    (st : State) : State :=
  let st := busy msg st in
  match result with
  | Fulfilled newData =>
      let st := commit newData st in
      mkState None false (processingMessage st) (undoStack st)
        (currentImageUri st) (overlay st) (alerts st)
  | Rejected =>
      let st := alert failure st in
      mkState (activeTool st) false (processingMessage st) (undoStack st)
        (currentImageUri st) (overlay st) (alerts st)
  | Pending => st
  end.

(** [await new Promise((r) => (img.onload = r))]: only the [load] event
    settles the promise. *)
Definition awaitOnload (l : Load) : Settled unit :=
  match l with
  | Loaded => Fulfilled tt
  | LoadError => Pending
  end.

(** What [handleApplyOverlay] meets while it runs: how the base image and
    the overlay image load, whether [getContext("2d")] returns a context,
    whether [containerRef] is attached, and the result of
    [canvas.toDataURL("image/png")] ([None] when it throws). *)
Record OverlayEnv : Type := mkOverlayEnv {
  mainLoad : Load;
  ovLoad : Load;
  context2d : bool;
  containerAttached : bool;
  encoded : option string
}.

Definition handleApplyOverlay (env : OverlayEnv) (st : State) : State :=
  match overlay st with
  | None => st
  | Some _ =>
      let st := busy "Applying overlay..." st in
      let failed := finally (alert "Apply overlay failed" st) in
      match awaitOnload (mainLoad env) with
      | Pending => st
      | Rejected => failed
      | Fulfilled _ =>
          match awaitOnload (ovLoad env) with
          | Pending => st
          | Rejected => failed
          | Fulfilled _ =>
              if negb (context2d env) then failed
              else if negb (containerAttached env) then failed
              else match encoded env with
                   | None => failed
                   | Some newUri =>
                       let st := commit newUri st in
                       finally
                         (mkState None (isProcessing st)
                            (processingMessage st) (undoStack st)
                            (currentImageUri st) None (alerts st))
                   end
          end
      end
  end.

(** The run of [handleApplyOverlay] replaces the current image. *)
Definition overlaySucceeds (env : OverlayEnv) : bool :=
  match mainLoad env, ovLoad env, encoded env with
  | Loaded, Loaded, Some _ => context2d env && containerAttached env
  | _, _, _ => false
  end.

(** The undo stack and the current image of a state. *)
Definition rasters (st : State) : list string * string :=
  (undoStack st, currentImageUri st).

(** A run of successful edits, given by their results. *)
Definition edits (results : list string) (st : State) : State :=
  fold_left (fun st r => commit r st) results st.

End Editor.

(** ** Canvas operations: ratio crop and horizontal flip *)

Module Canvas.

Import JS.

Inductive Format : Type := PNG | JPEG.

(** *** Ratio crop *)

Record Ratio : Type := mkRatio { name : string; w : Z; h : Z }.

Definition ratios : list Ratio :=
  [ mkRatio "1:1" 1 1; mkRatio "4:3" 4 3; mkRatio "16:9" 16 9;
    mkRatio "3:4" 3 4; mkRatio "9:16" 9 16 ].

(** The source rectangle [drawImage] copies, the size given to the canvas
    and the format asked of [toDataURL]. *)
Record Crop : Type := mkCrop {
  sx : num;
  sy : num;
  srcW : num;
  srcH : num;
  canvasWidth : num;
  canvasHeight : num;
  format : Format
}.

(** The [onClick] of a ratio button, for an image that has loaded with the
    given natural size. *)
Definition cropToRatio (naturalWidth naturalHeight : num) (r : Ratio)
  : Crop :=
  let targetRatio := ofZ (w r) / ofZ (h r) in
  let srcW := naturalWidth in
  let srcH := naturalHeight in
  let imgRatio := srcW / srcH in
  if imgRatio >? targetRatio
  then
    (* crop width *)
    let srcW := Math.round (srcH * targetRatio) in
    let sx := Math.round ((naturalWidth - srcW) / ofZ 2) in
    mkCrop sx zero srcW srcH srcW srcH PNG
  else
    let srcH := Math.round (srcW / targetRatio) in
    let sy := Math.round ((naturalHeight - srcH) / ofZ 2) in
    mkCrop zero sy srcW srcH srcW srcH PNG.

(** Rounding as the specification words it: [n] is the integer nearest to
    [x], a half rounded up. *)
Definition nearest (n : Z) (x : Q) : Prop :=
  (inject_Z n - (1 # 2) <= x /\ x < inject_Z n + (1 # 2))%Q.

(** *** Bitmaps and the 2d context *)

Record RGBA : Type := mkRGBA { red : N; green : N; blue : N; alpha : N }.

(** Transparent black, the content of a fresh canvas. *)
Definition blank : RGBA := mkRGBA 0 0 0 0.

(** A decoded image: its natural size and its rows of pixels, top to
    bottom, each row left to right. *)
Record Image : Type := mkImage {
  naturalWidth : nat;
  naturalHeight : nat;
  rows : list (list RGBA)
}.

Definition wellFormed (img : Image) : Prop :=
  List.length (rows img) = naturalHeight img
  /\ Forall (fun row => List.length row = naturalWidth img) (rows img).

Definition pixelAt (img : Image) (x y : nat) : RGBA :=
  nth x (nth y (rows img) []) blank.

(** The current transformation matrix: a point [(x, y)] of user space is
    drawn at [(a x + c y + e, b x + d y + f)]. *)
Record Matrix : Type := mkMatrix { a : Z; b : Z; c : Z; d : Z; e : Z; f : Z }.

Definition identityMatrix : Matrix := mkMatrix 1 0 0 1 0 0.

Record Context : Type := mkContext {
  width : nat;
  height : nat;
  ctm : Matrix;
  bitmap : list (list RGBA)
}.

(** [document.createElement("canvas")] followed by the assignment of
    [width] and [height], and [getContext("2d")]. *)
Definition createCanvas (width height : nat) : Context :=
  mkContext width height identityMatrix
    (repeat (repeat blank width) height).

Definition translate (tx ty : Z) (ctx : Context) : Context :=
  let m := ctm ctx in
  mkContext (width ctx) (height ctx)
    (mkMatrix (a m) (b m) (c m) (d m)
       (a m * tx + c m * ty + e m)%Z (b m * tx + d m * ty + f m)%Z)
    (bitmap ctx).

Definition scale (sx sy : Z) (ctx : Context) : Context :=
  let m := ctm ctx in
  mkContext (width ctx) (height ctx)
    (mkMatrix (a m * sx)%Z (b m * sx)%Z (c m * sy)%Z (d m * sy)%Z
       (e m) (f m))
    (bitmap ctx).

(** The source index drawn on device index [i] along an axis with factor
    [k] and offset [o]: the unit cell [[n, n + 1]] of the source lands on
    the cell between [k n + o] and [k (n + 1) + o].  Only the factors [1]
    and [-1] map cells onto cells. *)
Definition sourceIndex (k o : Z) (i : nat) : option Z :=
  if Z.eqb k 1 then Some (Z.of_nat i - o)%Z
  else if Z.eqb k (-1) then Some (o - 1 - Z.of_nat i)%Z
  else None.

Definition inside (n : Z) (size : nat) : bool :=
  (Z.leb 0 n) && (Z.ltb n (Z.of_nat size)).

Section Compositing.

(** Source-over compositing of a source pixel onto a canvas pixel. *)
Variable over : RGBA -> RGBA -> RGBA.

(** The pixel of the canvas at [(i, j)] after [drawImage(img, 0, 0)]. *)
Definition drawnPixel (m : Matrix) (img : Image) (i j : nat) (old : RGBA)
  : RGBA :=
  match sourceIndex (a m) (e m) i, sourceIndex (d m) (f m) j with
  | Some x, Some y =>
      if inside x (naturalWidth img) && inside y (naturalHeight img)
      then over (pixelAt img (Z.to_nat x) (Z.to_nat y)) old
      else old
  | _, _ => old
  end.

(** Apply [g] to every element of a list together with its index,
    counted from [i]. *)
Fixpoint mapi {A B : Type} (g : nat -> A -> B) (i : nat) (l : list A)
  : list B :=
  match l with
  | [] => []
  | v :: l' => g i v :: mapi g (S i) l'
  end.

(** [ctx.drawImage(img, 0, 0)] under a matrix without rotation or shear
    whose factors are [1] or [-1]; other matrices are outside the model
    and yield [None]. *)
Definition drawImage (img : Image) (ctx : Context) : option Context :=
  let m := ctm ctx in
  if Z.eqb (b m) 0 && Z.eqb (c m) 0
     && (Z.eqb (Z.abs (a m)) 1) && (Z.eqb (Z.abs (d m)) 1)
  then Some (mkContext (width ctx) (height ctx) m
               (mapi (fun j row =>
                        mapi (fun i old => drawnPixel m img i j old) 0%nat row)
                  0%nat (bitmap ctx)))
  else None.

(** [canvas.toDataURL("image/png")] and the later decoding of that URI:
    PNG is lossless, the decoded image is the bitmap. *)
Definition toImage (ctx : Context) : Image :=
  mkImage (width ctx) (height ctx) (bitmap ctx).

(** The [onload] of the Flip H button: the image drawn on a canvas of its
    own size under [translate(width, 0)] and [scale(-1, 1)], and the format
    asked of [toDataURL]. *)
Definition flipHorizontal (img : Image) : option (Image * Format) :=
  let canvas := createCanvas (naturalWidth img) (naturalHeight img) in
  let ctx := translate (Z.of_nat (width canvas)) 0 canvas in
  let ctx := scale (-1) 1 ctx in
  match drawImage img ctx with
  | Some ctx => Some (toImage ctx, PNG)
  | None => None
  end.

End Compositing.

End Canvas.

(** ** Arbitrary runs of the engine *)

Module Trace.

Import JS Gesture.

(** A call of one of the engine's entry points, with what the handler
    reads from the browser. *)
Inductive Call : Type :=
| Down (e : P) (env : Env)
| Move (e : P) (env : Env)
| Up (e : P)
| Frame
| Reset.

Definition exec (s : Engine) (c : Call) : Engine :=
  match c with
  | Down e env => onPointerDown e env s
  | Move e env => onPointerMove e env s
  | Up e => onPointerUp e s
  | Frame => frame s
  | Reset => resetOnImageChange s
  end.

Definition execAll (cs : list Call) (s : Engine) : Engine :=
  fold_left exec cs s.

(** [lo <= v <= hi] on numbers. *)
Definition within (lo hi v : num) : bool := (lo <=? v) && (v <=? hi).

(** One run of the loop is pending exactly while the engine animates. *)
Definition scheduledOnce (s : Engine) : Prop :=
  rafQueue s = if isAnimatingRef s then 1%nat else 0%nat.

(** A scale is [NaN] or lies in [0.3, 4]. *)
Definition scaleOk (v : num) : bool :=
  isNaN v || within (3 #/ 10) (ofZ 4) v.

End Trace.

(** ** The imported overlay: placing, dragging, compositing *)

Module OverlayTool.

Import JS Editor.

(** The size of the container: [clientWidth] and [clientHeight]. *)
Record Size : Type := mkSize { clientWidth : num; clientHeight : num }.

(** The [onload] of the file reader in [handleImageImport]: the overlay
    placed for the data URL [src]; [container] is [None] when
    [containerRef] is not attached. *)
Definition placeOverlay (container : option Size) (src : string) : Overlay :=
  match container with
  | None => mkOverlay src (ofZ 20) (ofZ 20) (ofZ 200) (ofZ 200) one
  | Some c =>
      let w := clientWidth c in
      let h := clientHeight c in
      let width := Math.min (ofZ 240) (w * 5 #/ 10) in
      let aspect := one in
      mkOverlay src ((w - width) / ofZ 2) ((h - width * aspect) / ofZ 2)
        width (width * aspect) one
  end.

(** [handleImageImport]: [file] is [None] when no file was chosen, and
    holds [None] when the reader never fires [load]. *)
Definition handleImageImport (file : option (option string))
    (container : option Size) (st : State) : State :=
  match file with
  | None => st
  | Some read =>
      mkState (Some import) (isProcessing st) (processingMessage st)
        (undoStack st) (currentImageUri st)
        (match read with
         | Some src => Some (placeOverlay container src)
         | None => overlay st
         end)
        (alerts st)
  end.

(** What the [onPointerDown] of the overlay box captures. *)
Record DragStart : Type := mkDragStart {
  startX : num;
  startY : num;
  startPosX : num;
  startPosY : num
}.

Definition dragStart (clientX clientY : num) (o : Overlay) : DragStart :=
  mkDragStart clientX clientY (ox o) (oy o).

(** [containerRef.current?.clientWidth || 0] *)
Definition widthOr0 (container : option Size) : num :=
  match container with
  | Some c => or_else (clientWidth c) zero
  | None => zero
  end.

Definition heightOr0 (container : option Size) : num :=
  match container with
  | Some c => or_else (clientHeight c) zero
  | None => zero
  end.

(** The [move] listener of the overlay drag. *)
Definition dragMove (d : DragStart) (clientX clientY : num)
    (container : option Size) (o : option Overlay) : option Overlay :=
  let dx := clientX - startX d in
  let dy := clientY - startY d in
  match o with
  | Some o =>
      Some (mkOverlay (src o)
              (Gesture.clamp (startPosX d + dx) zero
                 (widthOr0 container - owidth o))
              (Gesture.clamp (startPosY d + dy) zero
                 (heightOr0 container - oheight o))
              (owidth o) (oheight o) (opacity o))
  | None => None
  end.

(** The rectangle of the base image the overlay is drawn into by
    [handleApplyOverlay], with the alpha it is drawn at. *)
Record Dest : Type := mkDest {
  dx : num; dy : num; dWidth : num; dHeight : num; globalAlpha : num
}.

Definition overlayDest (naturalWidth naturalHeight : num) (container : Size)
    (o : Overlay) : Dest :=
  let scaleX := naturalWidth / clientWidth container in
  let scaleY := naturalHeight / clientHeight container in
  mkDest (ox o * scaleX) (oy o * scaleY) (owidth o * scaleX)
    (oheight o * scaleY) (opacity o).

End OverlayTool.

(** ** The remaining edit handlers *)

Module Handlers.

Import JS Editor.

(** [handleSave]: [saved] logs the images handed to [onSave], latest
    first; [onSaveThrows] tells whether the callback throws. *)
Definition handleSave (result : Settled string) (onSaveThrows : bool)
    (st : State) (saved : list string) : State * list string :=
  let st := busy "Saving..." st in
  match result with
  | Fulfilled finalImage =>
      let st := commit finalImage st in
      if onSaveThrows
      then (finally (alert "Error saving image" st), saved)
      else (finally st, finalImage :: saved)
  | Rejected => (finally (alert "Error saving image" st), saved)
  | Pending => (st, saved)
  end.

(** [handleExport]: [result] is the image from [applyCanvasOperations],
    [delivered] how fetching, sharing or downloading it ends. *)
Definition handleExport (result : Settled string) (delivered : Settled unit)
    (st : State) : State :=
  let st := busy "Exporting..." st in
  match result with
  | Fulfilled _ =>
      match delivered with
      | Fulfilled _ => finally st
      | Rejected => finally (alert "Export failed" st)
      | Pending => st
      end
  | Rejected => finally (alert "Export failed" st)
  | Pending => st
  end.

(** The handler of the Quality tool. *)
Definition improveQuality (load : Load) (context2d : bool)
    (encoded : option string) (st : State) : State :=
  let st := busy "Improving quality..." st in
  let failed := finally (alert "Improve failed" st) in
  match awaitOnload load with
  | Pending => st
  | Rejected => failed
  | Fulfilled _ =>
      if negb context2d then failed
      else match encoded with
           | None => failed
           | Some newUri => finally (commit newUri st)
           end
  end.

(** The [onload] of the ratio, flip and rotate buttons.  There is no
    [try]: without a context the callback throws before it touches the
    state, and [pushUndo] runs before [canvas.toDataURL] is evaluated. *)
Definition canvasButton (load : Load) (context2d : bool)
    (encoded : option string) (st : State) : State :=
  match load with
  | LoadError => st
  | Loaded =>
      if negb context2d then st
      else match encoded with
           | None =>
               mkState (activeTool st) (isProcessing st)
                 (processingMessage st)
                 (pushUndo (currentImageUri st) (undoStack st))
                 (currentImageUri st) (overlay st) (alerts st)
           | Some uri =>
               let st := commit uri st in
               mkState None (isProcessing st) (processingMessage st)
                 (undoStack st) (currentImageUri st) (overlay st) (alerts st)
           end
  end.

(** [onCropDone] of the crop tool. *)
Definition onCropDone (img : string) (st : State) : State :=
  let st := commit img st in
  mkState None (isProcessing st) (processingMessage st) (undoStack st)
    (currentImageUri st) (overlay st) (alerts st).

(** One use of the editor. *)
Inductive Action : Type :=
| Undo
| Save (result : Settled string) (onSaveThrows : bool)
| Export (result : Settled string) (delivered : Settled unit)
| BackgroundRemove (result : Settled string)
| ApplyTool (msg failure : string) (result : Settled string)
| ApplyOverlay (env : OverlayEnv)
| ImproveQuality (load : Load) (context2d : bool) (encoded : option string)
| CanvasButton (load : Load) (context2d : bool) (encoded : option string)
| CropDone (img : string).

Definition act (st : State) (a : Action) : State :=
  match a with
  | Undo => handleUndo st
  | Save r t => fst (handleSave r t st [])
  | Export r d => handleExport r d st
  | BackgroundRemove r => handleBackgroundRemove r st
  | ApplyTool m f r => applyTool m f r st
  | ApplyOverlay env => handleApplyOverlay env st
  | ImproveQuality l c e => improveQuality l c e st
  | CanvasButton l c e => canvasButton l c e st
  | CropDone img => onCropDone img st
  end.

Definition actAll (acts : list Action) (st : State) : State :=
  fold_left act acts st.

End Handlers.

(** ** The crop tool *)

Module CropTool.

Import JS.

Record CropRect : Type := mkCrop { x : num; y : num; w : num; h : num }.

Inductive Mode : Type := move | se | nw.

Record Drag : Type := mkDrag {
  mode : Mode;
  startX : num;
  startY : num;
  startCrop : CropRect
}.

Record State : Type := mkState {
  crop : CropRect;
  dragRef : option Drag
}.

Definition initial : State := mkState (mkCrop (ofZ 40) (ofZ 40) (ofZ 200) (ofZ 200)) None.

Record Size : Type := mkSize { clientWidth : num; clientHeight : num }.

(** The [onload] of the effect that centres the crop; [container] is
    [None] when [containerRef] is not attached. *)
Definition centerCrop (container : option Size) (st : State) : State :=
  match container with
  | None => st
  | Some c =>
      let w := clientWidth c in
      let h := clientHeight c in
      let size := Math.min w h * 6 #/ 10 in
      mkState (mkCrop ((w - size) / ofZ 2) ((h - size) / ofZ 2) size size)
        (dragRef st)
  end.

Definition startDrag (m : Mode) (clientX clientY : num) (st : State) : State :=
  mkState (crop st) (Some (mkDrag m clientX clientY (crop st))).

(** [clamp] of the crop tool. *)
Definition clamp (v a b : num) : num := Math.max a (Math.min b v).

Definition onMove (clientX clientY : num) (cont : Size) (st : State) : State :=
  match dragRef st with
  | None => st
  | Some d =>
      let dx := clientX - startX d in
      let dy := clientY - startY d in
      let sc := startCrop d in
      let c := crop st in
      match mode d with
      | move =>
          mkState (mkCrop (clamp (x sc + dx) zero (clientWidth cont - w c))
                     (clamp (y sc + dy) zero (clientHeight cont - h c))
                     (w c) (h c))
            (dragRef st)
      | se =>
          mkState (mkCrop (x c) (y c)
                     (clamp (w sc + dx) (ofZ 40) (clientWidth cont - x sc))
                     (clamp (h sc + dy) (ofZ 40) (clientHeight cont - y sc)))
            (dragRef st)
      | nw =>
          let nx := clamp (x sc + dx) zero (x sc + w sc - ofZ 40) in
          let ny := clamp (y sc + dy) zero (y sc + h sc - ofZ 40) in
          mkState (mkCrop nx ny (w sc + (x sc - nx)) (h sc + (y sc - ny)))
            (dragRef st)
      end
  end.

Definition endDrag (st : State) : State := mkState (crop st) None.

(** A pointer-down on the crop box, and one on a handle of it: the event
    of a handle bubbles to the box, whose handler runs after the
    handle's. *)
Definition pressBox (clientX clientY : num) (st : State) : State :=
  startDrag move clientX clientY st.

Definition pressHandle (m : Mode) (clientX clientY : num) (st : State)
  : State :=
  pressBox clientX clientY (startDrag m clientX clientY st).

(** The source rectangle [applyCrop] copies from the image. *)
Record Source : Type := mkSource { sx : num; sy : num; sw : num; sh : num }.

Definition applyCrop (naturalW naturalH rectWidth rectHeight : num)
    (c : CropRect) : Source :=
  let scaleX := naturalW / rectWidth in
  let scaleY := naturalH / rectHeight in
  mkSource (Math.round (x c * scaleX)) (Math.round (y c * scaleY))
    (Math.round (w c * scaleX)) (Math.round (h c * scaleY)).

End CropTool.

(** * Scenarios

    Concrete pages and event traces the properties below are evaluated
    on. *)

Module Scenario.

Import JS Gesture.

Definition page : Page :=
  mkPage (ofZ 800) (mkRect zero zero (ofZ 800) (ofZ 600))
    (mkRect (ofZ 200) (ofZ 150) (ofZ 400) (ofZ 300)).

(** A drag of one pointer from (0, 0) to (10, 5) over 20 ms. *)
Definition dragTrace : list Event :=
  [ PointerDown (mkP 1 zero zero) zero;
    PointerMove (mkP 1 (ofZ 10) (ofZ 5)) (ofZ 20) ].

(** A pinch with an animation frame between two of its updates: two
    pointers go down at (500, 300) and (600, 300), the second one reports
    its position, moves to (700, 300), a frame runs, and it moves on to
    (900, 300). *)
Definition pinchStart : list Event :=
  [ PointerDown (mkP 1 (ofZ 500) (ofZ 300)) zero;
    PointerDown (mkP 2 (ofZ 600) (ofZ 300)) (ofZ 5);
    PointerMove (mkP 2 (ofZ 600) (ofZ 300)) (ofZ 20);
    PointerMove (mkP 2 (ofZ 700) (ofZ 300)) (ofZ 40);
    AnimationFrame ].

Definition pinchUpdate : Event :=
  PointerMove (mkP 2 (ofZ 900) (ofZ 300)) (ofZ 60).

(** Two pointers go down on the same spot and one of them reports its
    position. *)
Definition coincidentTrace : list Event :=
  [ PointerDown (mkP 1 (ofZ 100) (ofZ 100)) zero;
    PointerDown (mkP 2 (ofZ 100) (ofZ 100)) (ofZ 5);
    PointerMove (mkP 2 (ofZ 100) (ofZ 100)) (ofZ 20) ].

(** The drag of [dragTrace] released, then [n] animation frames. *)
Definition flingTrace (n : nat) : list Event :=
  dragTrace ++ [PointerUp (mkP 1 (ofZ 10) (ofZ 5))] ++ repeat AnimationFrame n.

(** An editor on an image, with an imported overlay waiting to be
    applied. *)
Definition withOverlay : Editor.State :=
  Editor.mkState (Some Editor.import) false "Processing..."
    ["data:image/png;base64,AAAA"%string] "data:image/png;base64,BBBB"
    (Some (Editor.mkOverlay "data:text/plain;base64,aGk=" (ofZ 20) (ofZ 20)
             (ofZ 200) (ofZ 200) one))
    [].

(** The overlay file is not an image the browser can decode. *)
Definition overlayUndecodable : Editor.OverlayEnv :=
  Editor.mkOverlayEnv Editor.Loaded Editor.LoadError true true
    (Some "data:image/png;base64,CCCC"%string).

End Scenario.

(** * Properties *)

Import JS.

(** ** Arithmetic of [JS.num] on finite values *)

Lemma Qccompare_refl (q : Qc) : Qccompare q q = Eq.
Proof. apply Qceq_alt. reflexivity. Qed.

Lemma Qccompare_zero : Qccompare (Q2Qc 0) (Q2Qc 0) = Eq.
Proof. reflexivity. Qed.

Lemma sub_self (q : Qc) : Fin q - Fin q = zero.
Proof.
  unfold sub, neg, add, zero, ofZ. f_equal.
  apply Qcplus_opp_r.
Qed.

Lemma add_zero_r (q : Qc) : Fin q + zero = Fin q.
Proof.
  unfold add, zero, ofZ. f_equal. apply Qcplus_0_r.
Qed.

Lemma mul_zero_r (q : Qc) : Fin q * zero = zero.
Proof.
  unfold mul, zero, ofZ. f_equal. apply Qcmult_0_r.
Qed.

Lemma truthy_zero : truthy zero = false.
Proof. reflexivity. Qed.

Lemma div_two_fin (q : Qc) : exists h, Fin q / ofZ 2 = Fin h.
Proof.
  unfold div, ofZ. simpl.
  replace (Qccompare (Q2Qc (inject_Z 2)) (Q2Qc 0)) with Gt by reflexivity.
  eauto.
Qed.

Lemma sub_fin (p q : Qc) : exists r, Fin p - Fin q = Fin r.
Proof. unfold sub, neg, add. eauto. Qed.

Lemma eqb_eq (a b : num) : (a =? b) = true -> a = b.
Proof.
  destruct a as [p| | |], b as [q| | |]; simpl; try discriminate; trivial.
  destruct (Qccompare p q) eqn:E; try discriminate.
  intros _. f_equal. apply Qceq_alt. exact E.
Qed.

(** Decide an equation between closed numbers by evaluation. *)
Ltac js_eval := apply eqb_eq; vm_compute; reflexivity.

(** ** Pan *)

Section Pan.

Import Gesture Scenario.

(** The target translation written by the pan branch is the one it read:
    both increments are computed to zero, the first by its factor [0], the
    second because [lastPointerRef] already holds the position of the
    event when the difference is taken. *)
Lemma pan_target_translation_fixed (p : P) (env : Env) (s : Engine)
    (a b cx cy iw : Qc) :
  tx (targetRef s) = Fin a ->
  ty (targetRef s) = Fin b ->
  clientX p = Fin cx ->
  clientY p = Fin cy ->
  innerWidth env = Fin iw ->
  tx (targetRef (pan p env s)) = Fin a
  /\ ty (targetRef (pan p env s)) = Fin b.
Proof.
  intros Ha Hb Hx Hy Hw.
  unfold pan, startLoop.
  destruct (isAnimatingRef _); cbn [targetRef tx ty x y];
    rewrite Ha, Hb, Hx, Hy, Hw;
    destruct (div_two_fin iw) as [hw ->];
    destruct (sub_fin cx hw) as [r ->];
    rewrite mul_zero_r, !sub_self;
    unfold or_else; rewrite truthy_zero, !add_zero_r; auto.
Qed.

(** The velocity written by the pan branch when a previous sample is
    recorded: the displacement since that sample, divided by the elapsed
    time (at least one millisecond) in units of a frame. *)
Lemma pan_velocity (p : P) (env : Env) (s : Engine) (l : Sample) :
  lastPointerRef s = Some l ->
  let dt := Math.max one (now1 env - t l) in
  velocityRef (pan p env s)
  = mkVelocity ((clientX p - x l) / (dt / frameUnit))
               ((clientY p - y l) / (dt / frameUnit)).
Proof.
  intros Hl. unfold pan, startLoop. rewrite Hl.
  destruct (isAnimatingRef _); reflexivity.
Qed.

(** C1. A pointer move while one pointer is active should add the
    displacement since the previous sample to the target translation.  On
    the drag from (0, 0) to (10, 5) the handler records the velocity
    (25/3, 25/6), the displacement over 20 ms in frame units, but leaves
    the target translation at (0, 0) instead of (10, 5). *)
Theorem pan_drag_target_unmoved :
  let s := run page dragTrace init in
  tx (targetRef s) = zero
  /\ ty (targetRef s) = zero
  /\ vx (velocityRef s) = 25 #/ 3
  /\ vy (velocityRef s) = 25 #/ 6
  /\ (ofZ 10 - zero) / (ofZ 20 / frameUnit) = 25 #/ 3
  /\ (ofZ 5 - zero) / (ofZ 20 / frameUnit) = 25 #/ 6.
Proof.
  repeat split; js_eval.
Qed.

End Pan.

(** ** Finite arithmetic *)

Lemma add_fin (p q : Qc) : Fin p + Fin q = Fin (p + q)%Qc.
Proof. reflexivity. Qed.

Lemma sub_fin_eq (p q : Qc) : Fin p - Fin q = Fin (p - q)%Qc.
Proof. reflexivity. Qed.

Lemma mul_fin (p q : Qc) : Fin p * Fin q = Fin (p * q)%Qc.
Proof. reflexivity. Qed.

Lemma div_fin (p q : Qc) : q <> Q2Qc 0 -> Fin p / Fin q = Fin (p / q)%Qc.
Proof.
  intros Hq. unfold div.
  destruct (Qccompare q (Q2Qc 0)) eqn:E; trivial.
  apply Qceq_alt in E. contradiction.
Qed.

Lemma two_nonzero : Q2Qc (inject_Z 2) <> Q2Qc 0.
Proof. discriminate. Qed.

Lemma half_fin (p : Qc) : Fin p / ofZ 2 = Fin (p / Q2Qc (inject_Z 2))%Qc.
Proof. apply div_fin, two_nonzero. Qed.

(** Rewrite arithmetic on finite numbers into arithmetic on rationals. *)
Ltac fin_norm :=
  unfold one, zero, ofZ;
  repeat (rewrite ?add_fin, ?sub_fin_eq, ?mul_fin;
          try rewrite !(div_fin _ two_nonzero)).

(** Close an equation between rationals of the field [Qc]. *)
Ltac qc_field :=
  change (Q2Qc (inject_Z 1)) with (Q2Qc 1);
  generalize two_nonzero; generalize (Q2Qc (inject_Z 2)); intros;
  field; auto.

(** ** Pinch: keeping the focal point *)

Section Focal.

Import Gesture Scenario.

(** When the display translation equals the target translation, so that
    the rectangle measured for the image is centred where the target
    transform puts it, a pinch update keeps the image point under the
    pinch midpoint in place: the point the old target shows at the
    midpoint is shown there by the new target too. *)
Lemma pinch_focal_fixed_on_target
    (a b : P) (env : Env) (s : Engine) (L cr : DOMRect)
    (ax ay bx by_ l t w h T U S sc S' : Qc) :
  clientX a = Fin ax -> clientY a = Fin ay ->
  clientX b = Fin bx -> clientY b = Fin by_ ->
  L = mkRect (Fin l) (Fin t) (Fin w) (Fin h) ->
  targetRef s = mkTransform (Fin T) (Fin U) (Fin S) ->
  S <> Q2Qc 0 ->
  transformRef s = mkTransform (Fin T) (Fin U) (Fin sc) ->
  containerRect env = Some cr ->
  imgRect env = Some (getBoundingClientRect L (transformRef s)) ->
  pinchScale (lastPinchDistance s) (getDistanceBetween a b) (Fin S) = Fin S' ->
  let mid := getMidpoint a b in
  let s' := pinch a b env s in
  screenX L (targetRef s') (imageX L (targetRef s) (fst mid)) = fst mid
  /\ screenY L (targetRef s') (imageY L (targetRef s) (snd mid)) = snd mid.
Proof.
  intros Hax Hay Hbx Hby HL Ht HS Hc Hcr Hr Hp mid s'.
  subst mid s'. unfold pinch, startLoop, getMidpoint.
  rewrite Hcr, Hr, Ht. cbn [scale tx ty].
  rewrite Hp, Hc, HL, Hax, Hay, Hbx, Hby.
  unfold getBoundingClientRect, screenX, screenY, imageX, imageY.
  destruct (isAnimatingRef _);
    cbn [targetRef tx ty scale fst snd left top width height Math.abs];
    fin_norm; rewrite !(div_fin _ HS); fin_norm.
  all: split; apply (f_equal Fin); qc_field.
Qed.

(** C2. A pinch update should leave the image point under the pinch
    midpoint where it is.  In the pinch of [pinchStart] a frame has eased
    the display to translation -30 while the target translation is -200;
    the next update, with its midpoint at x = 700, measures the image where
    the display shows it and moves the target translation to -530.  The
    image point the target showed at x = 700 before the update (offset 250
    from the centre) is shown at x = 870 by the target after it. *)
Theorem pinch_focal_point_drifts :
  let L := imgLayout page in
  let before := run page pinchStart init in
  let after := step page before pinchUpdate in
  tx (targetRef before) = ofZ (-200)
  /\ scale (targetRef before) = ofZ 2
  /\ tx (transformRef before) = ofZ (-30)
  /\ fst (getMidpoint (mkP 1 (ofZ 500) (ofZ 300)) (mkP 2 (ofZ 900) (ofZ 300)))
     = ofZ 700
  /\ tx (targetRef after) = ofZ (-530)
  /\ scale (targetRef after) = ofZ 4
  /\ imageX L (targetRef before) (ofZ 700) = ofZ 250
  /\ screenX L (targetRef after) (ofZ 250) = ofZ 870.
Proof.
  repeat split; js_eval.
Qed.

End Focal.

(** ** Pinch: the scale clamp *)

Section Clamp.

Import Gesture Scenario.

Lemma clamp_in_range (v : num) :
  v <> NaN ->
  (3 #/ 10 <=? clamp v (3 #/ 10) (ofZ 4)) = true
  /\ (clamp v (3 #/ 10) (ofZ 4) <=? ofZ 4) = true.
Proof.
  intros Hv. destruct v as [q| | |]; try contradiction;
    try (split; reflexivity).
  unfold clamp, Math.min, ofZ, ofQ.
  destruct (Fin q <? Fin (Q2Qc (inject_Z 4))) eqn:E4.
  - unfold Math.max.
    destruct (Fin (Q2Qc (3 # 10)) <? Fin q) eqn:E3.
    + unfold ltb in E3, E4. unfold leb.
      destruct (Qccompare (Q2Qc (3 # 10)) q); try discriminate.
      destruct (Qccompare q (Q2Qc (inject_Z 4))); try discriminate.
      split; reflexivity.
    + split; reflexivity.
  - split; reflexivity.
Qed.

(** A pinch update whose scale product is a number writes a scale inside
    [0.3, 4]. *)
Lemma pinchScale_in_range (stored : option num) (dist prevScale : num) :
  pinchScale stored dist prevScale <> NaN ->
  (3 #/ 10 <=? pinchScale stored dist prevScale) = true
  /\ (pinchScale stored dist prevScale <=? ofZ 4) = true.
Proof.
  unfold pinchScale. intros H. apply clamp_in_range.
  intros E. apply H. rewrite E. reflexivity.
Qed.

(** A distance ratio of 100 is clamped to scale 4. *)
Example pinchScale_ratio_100 :
  pinchScale (Some (ofZ 3)) (ofZ 300) one = ofZ 4.
Proof. js_eval. Qed.

(** C3. Every pinch update should leave the target scale inside
    [0.3, 4].  When two pointers rest on the same spot and no pinch
    distance is stored, the update divides the distance 0 by itself: the
    scale factor, the scale and the translation written to the target are
    [NaN]. *)
Theorem pinch_coincident_pointers_scale_nan :
  let s := run page coincidentTrace init in
  getDistanceBetween (mkP 1 (ofZ 100) (ofZ 100)) (mkP 2 (ofZ 100) (ofZ 100))
  = zero
  /\ scale (targetRef s) = NaN
  /\ tx (targetRef s) = NaN
  /\ (3 #/ 10 <=? scale (targetRef s)) = false
  /\ (scale (targetRef s) <=? ofZ 4) = false.
Proof.
  repeat split; try reflexivity; js_eval.
Qed.

End Clamp.

(** ** The undo stack *)

Section Undo.

Import Editor.

Lemma pushUndo_firstn (uri : string) (s : list string) :
  pushUndo uri s = firstn 10 (uri :: s).
Proof. reflexivity. Qed.

Lemma firstn_app_firstn (m k : nat) (pre l : list string) :
  (m <= k)%nat ->
  firstn m (pre ++ firstn k l) = firstn m (pre ++ l).
Proof.
  revert m. induction pre as [|x pre IH]; intros m Hm.
  - cbn [app]. rewrite firstn_firstn. f_equal. lia.
  - destruct m as [|m]; [reflexivity|].
    cbn [app firstn]. f_equal. apply IH. lia.
Qed.

Lemma last_cons_default (x d d' : string) (l : list string) :
  last (x :: l) d = last (x :: l) d'.
Proof.
  revert x. induction l as [|y l IH]; intros x; [reflexivity|].
  change (last (y :: l) d = last (y :: l) d'). apply IH.
Qed.

(** The stack after a run of edits: the images archived by the run, latest
    first, in front of what was there, cut to ten entries. *)
Lemma edits_undoStack (rs : list string) (st : State) :
  rs <> [] ->
  undoStack (edits rs st)
  = firstn 10 (rev (removelast (currentImageUri st :: rs)) ++ undoStack st)
  /\ currentImageUri (edits rs st) = last rs (currentImageUri st).
Proof.
  revert st. induction rs as [|r rs IH]; intros st Hne; [contradiction|].
  destruct rs as [|r' rs].
  - split; reflexivity.
  - destruct (IH (commit r st)) as [IHs IHc]; [discriminate|].
    unfold edits in *. cbn [fold_left] in *.
    rewrite IHs, IHc. split.
    + cbn [commit currentImageUri undoStack].
      change (removelast (currentImageUri st :: r :: r' :: rs))
        with (currentImageUri st :: removelast (r :: r' :: rs)).
      cbn [rev]. rewrite <- app_assoc. cbn [app].
      rewrite pushUndo_firstn.
      apply firstn_app_firstn. lia.
    + change (last (r :: r' :: rs) (currentImageUri st))
        with (last (r' :: rs) (currentImageUri st)).
      apply last_cons_default.
Qed.

(** C4. After N successful edits from an empty undo stack, the stack holds
    the archived images latest first, cut to the ten most recent: its
    length is min(N, 10), and a push on a stack of ten entries drops the
    oldest one. *)
Theorem undoStack_after_edits :
  forall (imageUri : string) (results : list string),
    let st := edits results (initial imageUri) in
    let archived := removelast (imageUri :: results) in
    undoStack st = firstn 10 (rev archived)
    /\ List.length (undoStack st) = Nat.min (List.length results) 10
    /\ currentImageUri st = last results imageUri
    /\ forall uri e1 e2 e3 e4 e5 e6 e7 e8 e9 e10,
         pushUndo uri [e1; e2; e3; e4; e5; e6; e7; e8; e9; e10]
         = [uri; e1; e2; e3; e4; e5; e6; e7; e8; e9].
Proof.
  intros imageUri results st archived.
  assert (Hs : undoStack st = firstn 10 (rev archived)
               /\ currentImageUri st = last results imageUri).
  { subst st archived. destruct results as [|r rs].
    - split; reflexivity.
    - destruct (@edits_undoStack (r :: rs) (initial imageUri)) as [Hu Hc];
        [discriminate|].
      rewrite Hu, Hc. cbn [initial undoStack currentImageUri].
      rewrite app_nil_r. split; reflexivity. }
  destruct Hs as [Hu Hc]. repeat split; trivial.
  rewrite Hu, length_firstn, length_rev. subst archived.
  destruct results as [|r rs]; [reflexivity|].
  assert (Hl : List.length (removelast (imageUri :: r :: rs))
               = List.length (r :: rs)).
  { rewrite <- (length_rev (r :: rs)).
    change (imageUri :: r :: rs) with ([imageUri] ++ (r :: rs)).
    rewrite removelast_app by discriminate.
    cbn [app List.length]. f_equal.
    rewrite <- (rev_involutive (r :: rs)) at 1.
    destruct (rev (r :: rs)) as [|z zs] eqn:E.
    - apply (f_equal (@List.length _)) in E.
      rewrite length_rev in E. discriminate.
    - cbn [rev]. rewrite removelast_last, length_rev. reflexivity. }
  rewrite Hl. lia.
Qed.

Lemma handleUndo_pop (st : State) (latest : string) (rest : list string) :
  undoStack st = latest :: rest ->
  nonEmpty latest = true ->
  currentImageUri (handleUndo st) = latest
  /\ undoStack (handleUndo st) = rest.
Proof.
  intros Hs Hl. unfold handleUndo. rewrite Hs, Hl. split; reflexivity.
Qed.

Lemma handleUndo_iter (k : nat) :
  forall st : State,
    Forall (fun uri => nonEmpty uri = true) (undoStack st) ->
    (k < List.length (undoStack st))%nat ->
    currentImageUri (Nat.iter (S k) handleUndo st)
    = nth k (undoStack st) EmptyString
    /\ undoStack (Nat.iter (S k) handleUndo st) = skipn (S k) (undoStack st).
Proof.
  induction k as [|k IH]; intros st Hall Hk.
  - destruct (undoStack st) as [|u us] eqn:E; [cbn in Hk; lia|].
    inversion Hall; subst.
    apply handleUndo_pop; assumption.
  - destruct (undoStack st) as [|u us] eqn:E; [cbn in Hk; lia|].
    inversion Hall as [|? ? Hu Hus]; subst.
    rewrite Nat.iter_succ_r.
    destruct (@handleUndo_pop st u us E Hu) as [Hc Hs].
    destruct (IH (handleUndo st)) as [IHc IHs].
    + rewrite Hs. exact Hus.
    + rewrite Hs. cbn in Hk. lia.
    + rewrite IHc, IHs, Hs. split; reflexivity.
Qed.

(** C5. Undo on a stack whose latest entry is an image URI (a non-empty
    string, as every data URI is) makes that entry the current image and
    removes it from the stack; repeated, it brings back the archived
    images latest first.  On an empty stack it changes nothing.
    [handleUndo] is a total function: it has no failing run. *)
Theorem handleUndo_lifo :
  forall st : State,
    (forall latest rest,
        undoStack st = latest :: rest ->
        nonEmpty latest = true ->
        currentImageUri (handleUndo st) = latest
        /\ undoStack (handleUndo st) = rest)
    /\ (forall k,
          Forall (fun uri => nonEmpty uri = true) (undoStack st) ->
          (k < List.length (undoStack st))%nat ->
          currentImageUri (Nat.iter (S k) handleUndo st)
          = nth k (undoStack st) EmptyString
          /\ undoStack (Nat.iter (S k) handleUndo st)
             = skipn (S k) (undoStack st))
    /\ (undoStack st = [] -> handleUndo st = st).
Proof.
  intros st. repeat split.
  - eapply handleUndo_pop; eassumption.
  - eapply handleUndo_pop; eassumption.
  - apply handleUndo_iter; assumption.
  - apply handleUndo_iter; assumption.
  - intros E. unfold handleUndo. rewrite E. reflexivity.
Qed.

End Undo.

(** ** Failing edits *)

Section Failures.

Import Editor Scenario.

Lemma handleBackgroundRemove_failure (st : State) (r : Settled string) :
  (forall uri, r <> Fulfilled uri) ->
  rasters (handleBackgroundRemove r st) = rasters st.
Proof.
  intros Hr. destruct r as [uri| |]; [destruct (Hr uri)|..]; reflexivity.
Qed.

Lemma applyTool_failure (msg failure : string) (st : State)
    (r : Settled string) :
  (forall uri, r <> Fulfilled uri) ->
  rasters (applyTool msg failure r st) = rasters st.
Proof.
  intros Hr. destruct r as [uri| |]; [destruct (Hr uri)|..]; reflexivity.
Qed.

(** No run of [handleApplyOverlay] other than a successful one touches the
    image or the undo stack. *)
Lemma handleApplyOverlay_failure (env : OverlayEnv) (st : State) :
  overlaySucceeds env = false ->
  rasters (handleApplyOverlay env st) = rasters st.
Proof.
  unfold handleApplyOverlay, overlaySucceeds.
  destruct (overlay st); [|reflexivity].
  destruct (mainLoad env), (ovLoad env), (context2d env),
    (containerAttached env), (encoded env);
    cbn; intros; try discriminate; reflexivity.
Qed.

(** A rejected background removal is caught and reported, and the busy
    flag is cleared. *)
Lemma handleBackgroundRemove_rejected (st : State) :
  let st' := handleBackgroundRemove Rejected st in
  rasters st' = rasters st
  /\ alerts st' = "Background removal failed."%string :: alerts st
  /\ isProcessing st' = false.
Proof. repeat split. Qed.

(** C9. A failing edit should be caught and reported, with the image and
    the undo stack untouched.  When the overlay does not decode,
    [handleApplyOverlay] waits for a [load] event that never comes: the
    image and the undo stack are untouched, but nothing is reported and
    the busy flag stays set.  The same decode failure in
    [applyCanvasOperations] rejects, and the Apply handler of the compress
    tool reports it and clears the flag. *)
Theorem applyOverlay_decode_failure_unreported :
  let st := handleApplyOverlay overlayUndecodable withOverlay in
  rasters st = rasters withOverlay
  /\ alerts st = []
  /\ isProcessing st = true
  /\ overlay st = overlay withOverlay
  /\ let st' := applyTool "Compressing..." "Compress failed"
                  (applyCanvasOperations LoadError true None) withOverlay in
     rasters st' = rasters withOverlay
     /\ alerts st' = ["Compress failed"%string]
     /\ isProcessing st' = false.
Proof. repeat split. Qed.

End Failures.

(** ** Pointer down and the animation loop *)

Section Loop.

Import Gesture Scenario.

Lemma flinging_zero : flinging (mkVelocity zero zero) = false.
Proof. reflexivity. Qed.

Lemma startLoop_velocity (s : Engine) :
  velocityRef (startLoop s) = velocityRef s.
Proof. unfold startLoop. destruct (isAnimatingRef s); reflexivity. Qed.

Lemma startLoop_transforms (s : Engine) :
  transformRef (startLoop s) = transformRef s
  /\ targetRef (startLoop s) = targetRef s.
Proof. unfold startLoop. destruct (isAnimatingRef s); split; reflexivity. Qed.

(** A frame on a state without velocity only eases the display, or snaps
    it to the target; the velocity stays zero. *)
Lemma loop_without_velocity (s : Engine) :
  velocityRef s = mkVelocity zero zero ->
  velocityRef (loop s) = mkVelocity zero zero
  /\ (transformRef (loop s) = eased (transformRef s) (targetRef s)
      \/ transformRef (loop s) = targetRef s).
Proof.
  intros Hv. unfold loop. rewrite Hv, flinging_zero.
  destruct (negb _); cbn; auto.
Qed.

(** C10. Pointer down sets the fling velocity to exactly (0, 0), whatever
    it was; the animation frame that follows adds no velocity to the
    display: it eases the display towards the target, or snaps it there,
    and the velocity is still (0, 0) after it. *)
Theorem onPointerDown_cancels_fling :
  forall (e : P) (env : Env) (s : Engine),
    let s' := onPointerDown e env s in
    velocityRef s' = mkVelocity zero zero
    /\ flinging (velocityRef s') = false
    /\ velocityRef (loop s') = mkVelocity zero zero
    /\ (transformRef (loop s') = eased (transformRef s) (targetRef s)
        \/ transformRef (loop s') = targetRef s).
Proof.
  intros e env s s'.
  assert (Hv : velocityRef s' = mkVelocity zero zero).
  { subst s'. unfold onPointerDown. rewrite startLoop_velocity. reflexivity. }
  assert (Ht : transformRef s' = transformRef s /\ targetRef s' = targetRef s).
  { subst s'. unfold onPointerDown.
    destruct (startLoop_transforms
                (mkEngine (transformRef s) (targetRef s) (lastPinchDistance s)
                   (mkVelocity zero zero)
                   (map_set (pointerId e) e (pointers s))
                   (Some (mkSample (now1 env) (clientX e) (clientY e)))
                   (isAnimatingRef s) (rafQueue s))) as [H1 H2].
    split; assumption. }
  destruct Ht as [Ht1 Ht2].
  destruct (loop_without_velocity s' Hv) as [Hl1 Hl2].
  rewrite Hv, Ht1, Ht2 in *. auto using flinging_zero.
Qed.

(** A frame eases the display, applies the fling step, and then either
    stops the loop or schedules the next frame. *)
Lemma loop_cases (s : Engine) :
  let tgt := targetRef s in
  let cur' := flung (eased (transformRef s) tgt) (velocityRef s) in
  let v' := decayed (velocityRef s) in
  (closeEnough cur' tgt v' = true ->
   loop s = mkEngine tgt tgt (lastPinchDistance s) (mkVelocity zero zero)
              (pointers s) (lastPointerRef s) false (rafQueue s))
  /\ (closeEnough cur' tgt v' = false ->
      loop s = mkEngine cur' tgt (lastPinchDistance s) v' (pointers s)
                 (lastPointerRef s) (isAnimatingRef s) (S (rafQueue s))).
Proof.
  cbv zeta. unfold loop, flung, decayed.
  destruct (flinging (velocityRef s));
    split; intros ->; reflexivity.
Qed.

Lemma frame_single (s : Engine) :
  rafQueue s = 1%nat ->
  frame s = loop (mkEngine (transformRef s) (targetRef s)
                    (lastPinchDistance s) (velocityRef s) (pointers s)
                    (lastPointerRef s) (isAnimatingRef s) 0).
Proof. intros H. unfold frame. rewrite H. reflexivity. Qed.

(** The facts of the lemma below, from their evaluation as one boolean. *)
Lemma threshold_facts (s : Engine) :
  (Math.abs (vx (velocityRef s)) <? 5 #/ 100)
  && (Math.abs (vy (velocityRef s)) <? 5 #/ 100)
  && negb (vx (velocityRef s) =? zero)
  && isAnimatingRef s
  && Nat.eqb (rafQueue s) 1
  && (vx (velocityRef (frame s)) =? vx (velocityRef s) * friction)
  && Nat.eqb (rafQueue (frame s)) 1 = true ->
  (Math.abs (vx (velocityRef s)) <? 5 #/ 100) = true
  /\ (Math.abs (vy (velocityRef s)) <? 5 #/ 100) = true
  /\ (vx (velocityRef s) =? zero) = false
  /\ isAnimatingRef s = true
  /\ rafQueue s = 1%nat
  /\ vx (velocityRef (frame s)) = vx (velocityRef s) * friction
  /\ rafQueue (frame s) = 1%nat.
Proof.
  generalize (frame s). intros s'.
  generalize (vx (velocityRef s) * friction). intros w.
  destruct (Math.abs (vx (velocityRef s)) <? 5 #/ 100); [|discriminate].
  destruct (Math.abs (vy (velocityRef s)) <? 5 #/ 100); [|discriminate].
  destruct (vx (velocityRef s) =? zero); [discriminate|].
  destruct (isAnimatingRef s); [|discriminate].
  cbn [andb negb].
  intros H. apply andb_prop in H. destruct H as [H H3].
  apply andb_prop in H. destruct H as [H1 H2].
  apply Nat.eqb_eq in H1, H3. apply eqb_eq in H2.
  repeat apply conj; trivial.
Qed.

(** The claim C8 as stated fails on the released drag of [flingTrace]: 62
    frames after the release both velocity components are below 0.05, yet
    the velocity is not zero and the next frame is scheduled; that frame
    adds the velocity to the display and multiplies it by 0.92 once
    more. *)
Lemma fling_outlives_velocity_threshold :
  let s := run page (flingTrace 62) init in
  let s' := frame s in
  (Math.abs (vx (velocityRef s)) <? 5 #/ 100) = true
  /\ (Math.abs (vy (velocityRef s)) <? 5 #/ 100) = true
  /\ (vx (velocityRef s) =? zero) = false
  /\ isAnimatingRef s = true
  /\ rafQueue s = 1%nat
  /\ vx (velocityRef s') = vx (velocityRef s) * friction
  /\ rafQueue s' = 1%nat.
Proof.
  cbv zeta. apply threshold_facts. vm_compute. reflexivity.
Qed.

(** C8 (amended). With one frame scheduled, the frame eases the display
    towards the target and, when a velocity component exceeds 0.02 in
    magnitude, adds the velocity to the display and multiplies it by 0.92.
    The frame then stops the loop exactly when the display is within
    (0.3, 0.3, 0.001) of the target and both velocity components are below
    0.05: the display is set to the target, the velocity to exactly zero
    and no frame is scheduled.  Otherwise the velocity is kept and one
    frame is scheduled. *)
Theorem fling_frame :
  forall s : Engine,
    rafQueue s = 1%nat ->
    let tgt := targetRef s in
    let cur := eased (transformRef s) tgt in
    let v := velocityRef s in
    let cur' := flung cur v in
    let v' := decayed v in
    let s' := frame s in
    (flinging v = true ->
     cur' = mkTransform (tx cur + vx v) (ty cur + vy v) (scale cur)
     /\ v' = mkVelocity (vx v * friction) (vy v * friction))
    /\ (flinging v = false -> cur' = cur /\ v' = v)
    /\ (closeEnough cur' tgt v' = true ->
        transformRef s' = tgt
        /\ velocityRef s' = mkVelocity zero zero
        /\ isAnimatingRef s' = false
        /\ rafQueue s' = 0%nat)
    /\ (closeEnough cur' tgt v' = false ->
        transformRef s' = cur'
        /\ velocityRef s' = v'
        /\ isAnimatingRef s' = isAnimatingRef s
        /\ rafQueue s' = 1%nat)
    /\ (closeEnough cur' tgt v' = true ->
        (Math.abs (vx v') <? 5 #/ 100) = true
        /\ (Math.abs (vy v') <? 5 #/ 100) = true).
Proof.
  intros s Hq tgt cur v cur' v' s'.
  subst s'. rewrite (frame_single s Hq).
  set (s0 := mkEngine _ _ _ _ _ _ _ 0).
  destruct (loop_cases s0) as [Hstop Hgo].
  change (targetRef s0) with tgt in *.
  change (flung (eased (transformRef s0) tgt) (velocityRef s0))
    with cur' in *.
  change (decayed (velocityRef s0)) with v' in *.
  repeat split.
  - subst cur'. unfold flung. rewrite H. reflexivity.
  - subst v'. unfold decayed. rewrite H. reflexivity.
  - subst cur'. unfold flung. rewrite H. reflexivity.
  - subst v'. unfold decayed. rewrite H. reflexivity.
  - rewrite (Hstop H). reflexivity.
  - rewrite (Hstop H). reflexivity.
  - rewrite (Hstop H). reflexivity.
  - rewrite (Hstop H). reflexivity.
  - rewrite (Hgo H). reflexivity.
  - rewrite (Hgo H). reflexivity.
  - rewrite (Hgo H). reflexivity.
  - rewrite (Hgo H). reflexivity.
  - unfold closeEnough in H.
    repeat (apply andb_prop in H; destruct H as [H ?]). assumption.
  - unfold closeEnough in H.
    repeat (apply andb_prop in H; destruct H as [H ?]). assumption.
Qed.

End Loop.

(** ** Ratio crop *)

Section Crop.

Import Canvas.

Lemma round_nearest (q : Qc) :
  exists n, Math.round (Fin q) = ofZ n /\ nearest n q.
Proof.
  exists (Qfloor (q + (1 # 2))). split; [reflexivity|].
  unfold nearest.
  pose proof (Qfloor_le (q + (1 # 2))) as Hle.
  pose proof (Qlt_floor (q + (1 # 2))) as Hlt.
  rewrite inject_Z_plus in Hlt. change (inject_Z 1) with 1%Q in Hlt.
  split; lra.
Qed.

Lemma ofZ_div (a b : Z) :
  (0 < b)%Z -> ofZ a / ofZ b = Fin (Q2Qc (inject_Z a / inject_Z b)).
Proof.
  intros Hb. unfold ofZ. rewrite div_fin.
  - apply (f_equal Fin). apply Qc_is_canon.
    unfold Qcdiv, Qcmult, Qcinv, Q2Qc; cbn [this].
    rewrite !Qred_correct. reflexivity.
  - intros E. apply Q2Qc_eq_iff in E.
    unfold inject_Z, Qeq in E. cbn in E. lia.
Qed.


Lemma nearest_Qeq (n : Z) (x y : Q) : (x == y)%Q -> nearest n x -> nearest n y.
Proof. unfold nearest. intros E [H1 H2]. rewrite <- E. split; assumption. Qed.

(** The rational under an expression of [Qc]. *)
Ltac qc_this :=
  unfold Qcdiv, Qcminus, Qcplus, Qcopp, Qcmult, Qcinv, Q2Qc; cbn [this];
  rewrite ?Qred_correct; reflexivity.

Lemma gtb_ofQ (p q : Q) :
  (Fin (Q2Qc p) >? Fin (Q2Qc q)) = true <-> (q < p)%Q.
Proof.
  unfold gtb, ltb.
  destruct (Qccompare (Q2Qc q) (Q2Qc p)) eqn:E.
  - split; [discriminate|]. intros H.
    apply Qceq_alt in E. apply Q2Qc_eq_iff in E. rewrite E in H.
    exfalso. exact (Qlt_irrefl _ H).
  - split; [|reflexivity]. intros _.
    apply Qclt_alt in E. unfold Qclt in E. cbn [this Q2Qc] in E.
    rewrite !Qred_correct in E. exact E.
  - split; [discriminate|]. intros H.
    apply Qcgt_alt in E. cbn [this Q2Qc] in E.
    rewrite !Qred_correct in E. exfalso.
    exact (Qlt_irrefl _ (Qlt_trans _ _ _ H E)).
Qed.

(** C6. For a source image of W by H pixels and a target ratio, the ratio
    crop selects, when W/H exceeds the ratio, the full height and the width
    round(H * ratio) with sx = round((W - cropW) / 2) and sy = 0, and
    otherwise the full width and the height round(W / ratio) with
    sy = round((H - cropH) / 2) and sx = 0; the canvas takes the size of
    the selection and is encoded as PNG.  On a 400 by 300 image the ratio
    1:1 gives a 300 by 300 output with sx = 50 and sy = 0. *)
Theorem cropToRatio_geometry :
  (forall (W H : Z) (r : Ratio),
      (0 < W)%Z -> (0 < H)%Z -> (0 < w r)%Z -> (0 < h r)%Z ->
      let rho := (inject_Z (w r) / inject_Z (h r))%Q in
      let c := cropToRatio (ofZ W) (ofZ H) r in
      format c = PNG
      /\ canvasWidth c = srcW c
      /\ canvasHeight c = srcH c
      /\ ((rho < inject_Z W / inject_Z H)%Q ->
          exists cropW x,
            srcW c = ofZ cropW
            /\ nearest cropW (inject_Z H * rho)
            /\ sx c = ofZ x
            /\ nearest x ((inject_Z W - inject_Z cropW) / 2)
            /\ sy c = zero
            /\ srcH c = ofZ H)
      /\ (~ (rho < inject_Z W / inject_Z H)%Q ->
          exists cropH y,
            srcH c = ofZ cropH
            /\ nearest cropH (inject_Z W / rho)
            /\ sy c = ofZ y
            /\ nearest y ((inject_Z H - inject_Z cropH) / 2)
            /\ sx c = zero
            /\ srcW c = ofZ W))
  /\ (let c := cropToRatio (ofZ 400) (ofZ 300) (mkRatio "1:1" 1 1) in
      sx c = ofZ 50 /\ sy c = zero
      /\ srcW c = ofZ 300 /\ srcH c = ofZ 300
      /\ canvasWidth c = ofZ 300 /\ canvasHeight c = ofZ 300
      /\ format c = PNG).
Proof.
  split.
  - intros W H r HW HH Hw Hh rho c. subst c. unfold cropToRatio.
    rewrite (ofZ_div (w r) Hh), (ofZ_div W HH).
    fold rho.
    destruct (Fin (Q2Qc (inject_Z W / inject_Z H)) >? Fin (Q2Qc rho)) eqn:E.
    + apply gtb_ofQ in E. cbn [format canvasWidth canvasHeight srcW srcH sx sy].
      split; [reflexivity|]. split; [reflexivity|]. split; [reflexivity|].
      split; [|intros Hn; contradiction].
      * intros _. unfold ofZ. rewrite !mul_fin.
        destruct (round_nearest (Q2Qc (inject_Z H) * Q2Qc rho)%Qc) as [cw [Hcw Hn]].
        rewrite !Hcw. unfold ofZ. rewrite sub_fin_eq, (div_fin _ two_nonzero).
        destruct (round_nearest
                    ((Q2Qc (inject_Z W) - Q2Qc (inject_Z cw))
                     / Q2Qc (inject_Z 2))%Qc) as [x [Hx Hnx]].
        exists cw, x. rewrite Hx.
        split; [reflexivity|]. split.
        { eapply nearest_Qeq; [|exact Hn]. qc_this. }
        split; [reflexivity|]. split.
        { eapply nearest_Qeq; [|exact Hnx]. qc_this. }
        split; reflexivity.
    + assert (Hn : ~ (rho < inject_Z W / inject_Z H)%Q).
      { intros Hlt. apply gtb_ofQ in Hlt. congruence. }
      cbn [format canvasWidth canvasHeight srcW srcH sx sy].
      split; [reflexivity|]. split; [reflexivity|]. split; [reflexivity|].
      split; [intros Hlt; contradiction|].
      * intros _.
        assert (Hrho : Q2Qc rho <> Q2Qc 0).
        { intros E0. apply Q2Qc_eq_iff in E0. subst rho.
          assert (0 < inject_Z (w r) / inject_Z (h r))%Q.
          { apply Qlt_shift_div_l.
            - unfold Qlt, inject_Z; cbn; lia.
            - unfold Qlt, inject_Z; cbn; lia. }
          rewrite E0 in H0. exact (Qlt_irrefl _ H0). }
        unfold ofZ. rewrite !(div_fin _ Hrho).
        destruct (round_nearest (Q2Qc (inject_Z W) / Q2Qc rho)%Qc) as [ch [Hch Hnh]].
        rewrite !Hch. unfold ofZ. rewrite sub_fin_eq, (div_fin _ two_nonzero).
        destruct (round_nearest
                    ((Q2Qc (inject_Z H) - Q2Qc (inject_Z ch))
                     / Q2Qc (inject_Z 2))%Qc) as [y [Hy Hny]].
        exists ch, y. rewrite Hy.
        split; [reflexivity|]. split.
        { eapply nearest_Qeq; [|exact Hnh]. qc_this. }
        split; [reflexivity|]. split.
        { eapply nearest_Qeq; [|exact Hny]. qc_this. }
        split; reflexivity.
  - cbv zeta. repeat split; try reflexivity; js_eval.
Qed.

End Crop.

(** ** Horizontal flip *)

Section Flip.

Import Canvas.

Variable over : RGBA -> RGBA -> RGBA.
Hypothesis over_blank : forall p, over p blank = p.

Lemma mapi_repeat {A B : Type} (g : nat -> A -> B) (v : A) (n k : nat) :
  mapi g k (repeat v n) = map (fun i => g i v) (seq k n).
Proof.
  revert k. induction n as [|n IH]; intros k; [reflexivity|].
  cbn [repeat mapi seq map]. f_equal. apply IH.
Qed.

Lemma map_nth_seq {A B : Type} (g : A -> B) (l : list A) (d : A) :
  map (fun j => g (nth j l d)) (seq 0 (List.length l)) = map g l.
Proof.
  induction l as [|v l IH]; [reflexivity|].
  cbn [List.length seq map nth]. f_equal.
  rewrite <- seq_shift, map_map. exact IH.
Qed.

Lemma row_mirror (row : list RGBA) :
  map (fun i => nth (List.length row - 1 - i) row blank)
      (seq 0 (List.length row))
  = rev row.
Proof.
  apply (nth_ext _ _ blank blank).
  - rewrite length_map, length_seq, length_rev. reflexivity.
  - intros i Hi. rewrite length_map, length_seq in Hi.
    rewrite (nth_indep _ blank (nth (List.length row - 1 - 0) row blank))
      by (rewrite length_map, length_seq; exact Hi).
    rewrite (map_nth (fun i => nth (List.length row - 1 - i) row blank)).
    rewrite seq_nth by exact Hi.
    rewrite rev_nth by exact Hi.
    f_equal. lia.
Qed.

(** The bitmap the flip draws: every row of the image, reversed. *)
Lemma flipHorizontal_rows (img : Image) :
  wellFormed img ->
  flipHorizontal over img
  = Some (mkImage (naturalWidth img) (naturalHeight img)
            (map (@rev RGBA) (rows img)), PNG).
Proof.
  intros [Hh Hw].
  assert (Hctx :
    scale (-1) 1
      (translate (Z.of_nat (width (createCanvas (naturalWidth img)
                                     (naturalHeight img)))) 0
         (createCanvas (naturalWidth img) (naturalHeight img)))
    = mkContext (naturalWidth img) (naturalHeight img)
        (mkMatrix (-1) 0 0 1 (Z.of_nat (naturalWidth img)) 0)
        (repeat (repeat blank (naturalWidth img)) (naturalHeight img))).
  { unfold scale, translate, createCanvas.
    cbn [ctm a b c d e f width height bitmap identityMatrix].
    f_equal. f_equal; lia. }
  unfold flipHorizontal. rewrite Hctx.
  unfold drawImage, toImage.
  cbn [ctm a b c d e f width height bitmap Z.eqb Z.abs andb Pos.eqb].
  do 2 f_equal. f_equal.
  rewrite mapi_repeat.
  rewrite <- Hh, <- (map_nth_seq (@rev RGBA) (rows img) []).
  apply map_ext_in. intros j Hj. apply in_seq in Hj.
  rewrite mapi_repeat.
  assert (Hrow : List.length (nth j (rows img) []) = naturalWidth img).
  { rewrite Forall_forall in Hw. apply Hw. apply nth_In. lia. }
  rewrite <- row_mirror, Hrow.
  apply map_ext_in. intros i Hi. apply in_seq in Hi.
  unfold drawnPixel, sourceIndex. cbn [a d e f Z.eqb Pos.eqb].
  unfold inside.
  replace (_ && _) with true.
  - rewrite over_blank. unfold pixelAt. f_equal; [lia|f_equal; lia].
  - symmetry. rewrite !andb_true_iff, !Z.leb_le, !Z.ltb_lt. lia.
Qed.

Lemma flipped_wellFormed (img : Image) :
  wellFormed img ->
  wellFormed (mkImage (naturalWidth img) (naturalHeight img)
                (map (@rev RGBA) (rows img))).
Proof.
  intros [Hh Hw]. split; cbn [rows naturalWidth naturalHeight].
  - rewrite length_map. exact Hh.
  - apply Forall_map. revert Hw. apply Forall_impl.
    intros row Hrow. rewrite length_rev. exact Hrow.
Qed.


End Flip.

(** ** Instances *)

Section Instances.

Import Gesture Editor Canvas Scenario.

(** An editor with two archived images. *)
Lemma handleUndo_lifo_witness :
  let st := mkState None false "Processing..." ["b"%string; "a"%string]
              "c" None [] in
  undoStack st = ["b"%string; "a"%string]
  /\ nonEmpty "b" = true
  /\ currentImageUri (handleUndo st) = "b"%string
  /\ undoStack (handleUndo st) = ["a"%string]
  /\ currentImageUri (Nat.iter 2 handleUndo st) = "a"%string
  /\ undoStack (Nat.iter 2 handleUndo st) = [].
Proof.
  cbv zeta.
  set (st := mkState None false "Processing..." ["b"%string; "a"%string]
               "c" None []).
  destruct (handleUndo_lifo st) as [Hpop [Hiter _]].
  destruct (Hpop "b"%string ["a"%string] eq_refl eq_refl) as [H1 H2].
  assert (Hall : Forall (fun uri => nonEmpty uri = true) (undoStack st)).
  { repeat constructor. }
  assert (Hlen : (1 < List.length (undoStack st))%nat) by (simpl; lia).
  destruct (Hiter 1%nat Hall Hlen) as [H3 H4].
  repeat split; assumption.
Defined.

(** A 1000 by 500 image cropped to 4:3. *)
Lemma cropToRatio_geometry_witness :
  (0 < 1000)%Z /\ (0 < 500)%Z /\ (0 < 4)%Z /\ (0 < 3)%Z
  /\ format (cropToRatio (ofZ 1000) (ofZ 500) (mkRatio "4:3" 4 3)) = PNG.
Proof.
  destruct cropToRatio_geometry as [Hgen _].
  destruct (Hgen 1000%Z 500%Z (mkRatio "4:3" 4 3)) as [Hf _];
    try (simpl; lia).
  split; [lia|]. split; [lia|]. split; [lia|]. split; [lia|]. exact Hf.
Defined.


(** The released drag, one frame after the release. *)
Lemma fling_frame_witness :
  let s := run page (flingTrace 0) init in
  rafQueue s = 1%nat
  /\ rafQueue (frame s) = 1%nat.
Proof.
  cbv zeta.
  assert (Hq : rafQueue (run page (flingTrace 0) init) = 1%nat)
    by (vm_compute; reflexivity).
  split; [exact Hq|].
  destruct (fling_frame (run page (flingTrace 0) init) Hq)
    as [_ [_ [_ [Hgo _]]]].
  apply Hgo. vm_compute. reflexivity.
Defined.

End Instances.

(** * Further properties *)

(** ** Order on finite numbers *)

Lemma ltb_fin_true (p q : Qc) : (Fin p <? Fin q) = true -> (p < q)%Qc.
Proof.
  unfold ltb. destruct (Qccompare p q) eqn:E; try discriminate.
  intros _. apply Qclt_alt. exact E.
Qed.

Lemma ltb_fin_false (p q : Qc) : (Fin p <? Fin q) = false -> (q <= p)%Qc.
Proof.
  unfold ltb. destruct (Qccompare p q) eqn:E; try discriminate; intros _.
  - apply Qceq_alt in E. subst. apply Qcle_refl.
  - apply Qclt_le_weak. apply Qcgt_alt in E. exact E.
Qed.

Lemma ltb_fin_intro (p q : Qc) : (p < q)%Qc -> (Fin p <? Fin q) = true.
Proof.
  intros H. unfold ltb. destruct (Qccompare p q) eqn:E; trivial; exfalso.
  - apply Qceq_alt in E. subst. exact (Qcle_not_lt _ _ (Qcle_refl q) H).
  - apply Qcgt_alt in E.
    exact (Qcle_not_lt _ _ (Qcle_refl p) (Qclt_trans _ _ _ H E)).
Qed.

Lemma ltb_fin_intro_false (p q : Qc) : (q <= p)%Qc -> (Fin p <? Fin q) = false.
Proof.
  intros H. destruct (Fin p <? Fin q) eqn:E; trivial.
  apply ltb_fin_true in E. exfalso. exact (Qcle_not_lt _ _ H E).
Qed.

Lemma leb_fin_true (p q : Qc) : (Fin p <=? Fin q) = true -> (p <= q)%Qc.
Proof.
  unfold leb. destruct (Qccompare p q) eqn:E; try discriminate; intros _.
  - apply Qceq_alt in E. subst. apply Qcle_refl.
  - apply Qclt_le_weak. apply Qclt_alt. exact E.
Qed.

Lemma leb_fin_intro (p q : Qc) : (p <= q)%Qc -> (Fin p <=? Fin q) = true.
Proof.
  intros H. unfold leb. destruct (Qccompare p q) eqn:E; trivial; exfalso.
  apply Qcgt_alt in E. exact (Qcle_not_lt _ _ H E).
Qed.

(** Turn a goal on rationals of [Qc] into one on [Q] and solve it by
    linear arithmetic. *)
Ltac qc_lra :=
  unfold Qclt, Qcle in *;
  unfold Qcdiv, Qcminus, Qcplus, Qcopp, Qcmult, Qcinv, Q2Qc in *;
  cbn [this] in *;
  rewrite ?Qred_correct in *;
  lra.

Lemma max_fin_spec (p q : Qc) :
  exists r, Math.max (Fin p) (Fin q) = Fin r
            /\ (p <= r)%Qc /\ (q <= r)%Qc /\ (r = p \/ r = q).
Proof.
  unfold Math.max. destruct (Fin p <? Fin q) eqn:E.
  - apply ltb_fin_true in E. exists q. repeat split; auto using Qcle_refl, Qclt_le_weak.
  - apply ltb_fin_false in E. exists p. repeat split; auto using Qcle_refl.
Qed.

Lemma min_fin_spec (p q : Qc) :
  exists r, Math.min (Fin p) (Fin q) = Fin r
            /\ (r <= p)%Qc /\ (r <= q)%Qc /\ (r = p \/ r = q).
Proof.
  unfold Math.min. destruct (Fin q <? Fin p) eqn:E.
  - apply ltb_fin_true in E. exists q. repeat split; auto using Qcle_refl, Qclt_le_weak.
  - apply ltb_fin_false in E. exists p. repeat split; auto using Qcle_refl.
Qed.

(** [Math.max(lo, Math.min(hi, v))] on finite numbers: never below [lo];
    inside [lo, hi] when [lo <= hi], and then [v] itself when [v] is
    inside; [lo] when [hi < lo]. *)
Lemma clamp_fin_spec (v lo hi : Qc) :
  exists r, Math.max (Fin lo) (Math.min (Fin hi) (Fin v)) = Fin r
            /\ (lo <= r)%Qc
            /\ ((lo <= hi)%Qc -> (r <= hi)%Qc)
            /\ ((lo <= v)%Qc -> (v <= hi)%Qc -> r = v)
            /\ ((hi < lo)%Qc -> r = lo).
Proof.
  destruct (min_fin_spec hi v) as [m [Hm [Hm1 [Hm2 Hm3]]]].
  rewrite Hm.
  destruct (max_fin_spec lo m) as [r [Hr [Hr1 [Hr2 Hr3]]]].
  exists r. split; [exact Hr|]. split; [exact Hr1|].
  split; [|split].
  - intros Hlh. destruct Hr3 as [->| ->]; assumption.
  - intros Hlv Hvh.
    assert (m = v).
    { destruct Hm3 as [->| ->]; [apply Qcle_antisym; assumption|reflexivity]. }
    subst m. destruct Hr3 as [->| ->]; [apply Qcle_antisym; assumption|reflexivity].
  - intros Hlt. destruct Hr3 as [->| ->]; [reflexivity|].
    apply Qcle_antisym; [|assumption].
    eapply Qcle_trans; [exact Hm1|]. apply Qclt_le_weak. exact Hlt.
Qed.

(** ** The animation loop is scheduled at most once *)

Section Scheduling.

Import Gesture Trace.

Lemma startLoop_scheduledOnce (s : Engine) :
  scheduledOnce s -> scheduledOnce (startLoop s).
Proof.
  unfold scheduledOnce, startLoop.
  destruct (isAnimatingRef s) eqn:E; cbn; [rewrite E; trivial|].
  intros ->. reflexivity.
Qed.

Lemma loop_scheduledOnce (s : Engine) :
  rafQueue s = 0%nat -> isAnimatingRef s = true -> scheduledOnce (loop s).
Proof.
  intros Hq Ha. unfold scheduledOnce, loop.
  destruct (flinging (velocityRef s));
    destruct (negb _); cbn; rewrite ?Hq, ?Ha; reflexivity.
Qed.

Lemma exec_scheduledOnce (s : Engine) (c : Call) :
  scheduledOnce s -> scheduledOnce (exec s c).
Proof.
  intros H. destruct c as [e env|e env|e| |]; cbn [exec].
  - apply startLoop_scheduledOnce. exact H.
  - unfold onPointerMove.
    destruct (negb (map_has (pointerId e) (pointers s))); [exact H|].
    cbn [pointers].
    destruct (map_values (map_set (pointerId e) e (pointers s))) as [|p [|q l]].
    + exact H.
    + apply startLoop_scheduledOnce. exact H.
    + unfold pinch. destruct (containerRect env), (imgRect env);
        apply startLoop_scheduledOnce; exact H.
  - apply startLoop_scheduledOnce. exact H.
  - unfold frame. unfold scheduledOnce in H.
    destruct (isAnimatingRef s) eqn:Ha; rewrite H; cbn [Nat.iter nat_rect].
    + apply loop_scheduledOnce; reflexivity.
    + unfold scheduledOnce. cbn. reflexivity.
  - exact H.
Qed.

(** X1. Whatever calls the engine receives, at most one run of the
    animation loop is pending, and one is pending exactly while the engine
    is animating. *)
Theorem loop_scheduled_at_most_once :
  forall cs : list Call,
    let s := execAll cs init in
    rafQueue s = (if isAnimatingRef s then 1 else 0)%nat
    /\ (rafQueue s <= 1)%nat.
Proof.
  intros cs s.
  assert (H : scheduledOnce s).
  { subst s. unfold execAll.
    assert (G : forall s0, scheduledOnce s0 -> scheduledOnce (fold_left exec cs s0)).
    { induction cs as [|c cs IH]; intros s0 H0; [exact H0|].
      cbn [fold_left]. apply IH. apply exec_scheduledOnce. exact H0. }
    apply G. reflexivity. }
  split; [exact H|]. unfold scheduledOnce in H. rewrite H.
  destruct (isAnimatingRef s); lia.
Qed.

End Scheduling.

(** ** The target scale along arbitrary runs *)

Section ScaleInvariant.

Import Gesture Trace.

Lemma clamp_scaleOk (v : num) : scaleOk (clamp v (3 #/ 10) (ofZ 4)) = true.
Proof.
  destruct v as [q| | |]; try reflexivity.
  unfold scaleOk, within.
  destruct (@clamp_in_range (Fin q)) as [H1 H2]; [discriminate|].
  rewrite H1, H2. apply orb_true_r.
Qed.

Lemma loop_targetRef (s : Engine) : targetRef (loop s) = targetRef s.
Proof.
  unfold loop. destruct (flinging _); destruct (negb _); reflexivity.
Qed.

Lemma iter_loop_targetRef (n : nat) (s : Engine) :
  targetRef (Nat.iter n loop s) = targetRef s.
Proof.
  induction n as [|n IH]; [reflexivity|].
  cbn [Nat.iter nat_rect]. rewrite loop_targetRef. exact IH.
Qed.

Lemma frame_targetRef (s : Engine) : targetRef (frame s) = targetRef s.
Proof. unfold frame. rewrite iter_loop_targetRef. reflexivity. Qed.

Lemma exec_scaleOk (s : Engine) (c : Call) :
  scaleOk (scale (targetRef s)) = true ->
  scaleOk (scale (targetRef (exec s c))) = true.
Proof.
  intros H. destruct c as [e env|e env|e| |]; cbn [exec].
  - unfold onPointerDown. rewrite (proj2 (startLoop_transforms _)). exact H.
  - unfold onPointerMove.
    destruct (negb (map_has (pointerId e) (pointers s))); [exact H|].
    cbn [pointers].
    destruct (map_values (map_set (pointerId e) e (pointers s))) as [|p [|q l]].
    + exact H.
    + unfold pan. rewrite (proj2 (startLoop_transforms _)).
      cbn [targetRef scale]. apply clamp_scaleOk.
    + unfold pinch. destruct (containerRect env), (imgRect env);
        rewrite (proj2 (startLoop_transforms _));
        cbn [targetRef scale]; apply clamp_scaleOk.
  - unfold onPointerUp. rewrite (proj2 (startLoop_transforms _)). exact H.
  - rewrite frame_targetRef. exact H.
  - reflexivity.
Qed.

(** X2. Whatever calls the engine receives, the target scale is a number
    in [0.3, 4] or is [NaN]: no run leaves it at a number outside the
    range. *)
Theorem target_scale_in_range_or_nan :
  forall cs : list Call,
    let v := scale (targetRef (execAll cs init)) in
    isNaN v = true
    \/ ((3 #/ 10 <=? v) = true /\ (v <=? ofZ 4) = true).
Proof.
  intros cs v.
  assert (H : scaleOk v = true).
  { subst v. unfold execAll.
    assert (G : forall s0, scaleOk (scale (targetRef s0)) = true ->
                           scaleOk (scale (targetRef (fold_left exec cs s0))) = true).
    { induction cs as [|c cs IH]; intros s0 H0; [exact H0|].
      cbn [fold_left]. apply IH. apply exec_scaleOk. exact H0. }
    apply G. reflexivity. }
  unfold scaleOk, within in H.
  apply orb_true_iff in H. destruct H as [H|H]; [left; exact H|right].
  apply andb_true_iff in H. exact H.
Qed.

(** X3. A pinch update between two pointers at a finite distance other
    than zero, on a finite target scale, with no stored distance or a
    finite one, writes a finite scale inside [0.3, 4]. *)
Theorem pinch_scale_in_range :
  forall (a b : P) (env : Env) (s : Engine) (d S : Qc),
    getDistanceBetween a b = Fin d ->
    d <> Q2Qc 0 ->
    scale (targetRef s) = Fin S ->
    (lastPinchDistance s = None
     \/ exists d0, lastPinchDistance s = Some (Fin d0)) ->
    exists r : Qc,
      scale (targetRef (pinch a b env s)) = Fin r
      /\ (Q2Qc (3 # 10) <= r)%Qc /\ (r <= Q2Qc (inject_Z 4))%Qc.
Proof.
  intros a b env s d S Hd Hnz HS Hstored.
  assert (Hprev : exists p, p <> Q2Qc 0 /\
            pinchScale (lastPinchDistance s) (Fin d) (Fin S)
            = clamp (Fin S * (Fin d / Fin p)) (3 #/ 10) (ofZ 4)).
  { unfold pinchScale. destruct Hstored as [->|[d0 ->]].
    - exists d. split; [exact Hnz|reflexivity].
    - cbn [unset]. unfold truthy.
      destruct (Qccompare d0 (Q2Qc 0)) eqn:E; cbn [negb].
      + exists d. split; [exact Hnz|reflexivity].
      + exists d0. split; [|reflexivity].
        intros E0. subst d0. rewrite Qccompare_refl in E. discriminate.
      + exists d0. split; [|reflexivity].
        intros E0. subst d0. rewrite Qccompare_refl in E. discriminate. }
  destruct Hprev as [p [Hp Hps]].
  assert (Hscale : scale (targetRef (pinch a b env s))
                   = pinchScale (lastPinchDistance s) (Fin d) (Fin S)).
  { unfold pinch. rewrite Hd, HS.
    destruct (containerRect env), (imgRect env);
      rewrite (proj2 (startLoop_transforms _)); reflexivity. }
  rewrite Hscale, Hps, (div_fin _ Hp), mul_fin.
  unfold clamp, ofQ, ofZ.
  destruct (clamp_fin_spec (S * (d / p)) (Q2Qc (3 # 10)) (Q2Qc (inject_Z 4)))
    as [r [Hr [H1 [H2 _]]]].
  exists r. split; [exact Hr|]. split; [exact H1|].
  apply H2. unfold Qcle. cbn. unfold Qle. cbn. lia.
Qed.

End ScaleInvariant.
